(** * simple-sidecar: the admission webhook's mutation policy and patch builder

    A shallow embedding of [pkg/webhook/webhook.go]: the policy check
    [mutationRequired], the patch builders [addContainer], [addVolume],
    [updateAnnotation], [addVolumeMounts], [addEnvVars], their composition
    [createPatch], and the orchestrator [mutate].

    Conventions of the embedding.
    - Go strings and [[]byte] values are [string]; a Go [error] is the text of
      its message.
    - A Go [map[string]string] is an [option (gmap string string)]: [None] is
      the nil map.  Indexing a map ([m[k]]) gives the zero value for a missing
      key and for the nil map; the comma-ok form tells the two apart.
    - A slice that the code only ranges over or measures is a [list] (a nil
      slice and an empty one behave alike there); a slice that the code
      compares with nil is an [option (list _)].
    - [for k, v := range m] over a map visits the entries in an order that Go
      leaves unspecified: the functions that range over a map take the
      visiting order as a list of entries.
    - Calls to the loggers do not influence any returned value and are left
      out; the loggers are assumed to be set, as [main] does.
    - The functions of the Go libraries that the package calls
      ([strings.ToLower], [json.Unmarshal], [yaml.Marshal], [json.Marshal])
      are parameters of the development, grouped in the classes [Strings]
      and [Codec]; encoded documents have an abstract type. *)

From Stdlib Require Import String Ascii List.
From stdpp Require Import base option list gmap strings pretty.

Local Open Scope string_scope.
Local Open Scope list_scope.

(** ** Kubernetes objects, as far as the package reads them *)

Module EnvVar.
Record t := mk { Name : string; Value : string }.
End EnvVar.

Module VolumeMount.
Record t := mk { Name : string; MountPath : string }.
End VolumeMount.

Module Volume.
Record t := mk { Name : string }.
End Volume.

Module Container.
(** [Env] is compared with nil by [addEnvVars]. *)
Record t := mk {
  Name : string;
  Image : string;
  Env : option (list EnvVar.t);
  VolumeMounts : option (list VolumeMount.t)
}.
End Container.

Module ObjectMeta.
Record t := mk {
  Name : string;
  Namespace : string;
  Annotations : option (gmap string string)
}.

(** [GetAnnotations] returns the field as it is. *)
Definition GetAnnotations (meta : t) : option (gmap string string) :=
  Annotations meta.
End ObjectMeta.

Module PodSpec.
Record t := mk {
  InitContainers : list Container.t;
  Containers : list Container.t;
  Volumes : list Volume.t
}.
End PodSpec.

Module Pod.
Record t := mk { ObjectMeta : ObjectMeta.t; Spec : PodSpec.t }.

(** The fields of the embedded [ObjectMeta] are promoted to the pod. *)
Definition Annotations (pod : t) : option (gmap string string) :=
  ObjectMeta.Annotations (ObjectMeta pod).
Definition Namespace (pod : t) : string :=
  ObjectMeta.Namespace (ObjectMeta pod).
End Pod.

(** ** The package's own types *)

Module Config.
(** [Config] with the fields of the embedded [ExistingContainerConfig]. *)
Record t := mk {
  InitContainers : list Container.t;
  Containers : list Container.t;
  Volumes : list Volume.t;
  EnvVars : list EnvVar.t;
  VolumeMounts : list VolumeMount.t
}.
End Config.

(** [MultiConfig] is [map[string]Config]; the package only reads it. *)
Abbreviation MultiConfig := (gmap string Config.t).

(** The payloads that the package stores in [patchOperation.Value]. *)
Inductive value : Type :=
  | VContainer (c : Container.t)
  | VContainers (cs : list Container.t)
  | VVolume (v : Volume.t)
  | VVolumes (vs : list Volume.t)
  | VVolumeMount (vm : VolumeMount.t)
  | VEnvVar (e : EnvVar.t)
  | VEnvVars (es : list EnvVar.t)
  | VStringMap (m : gmap string string)
  | VString (s : string).

Record patchOperation := mkOp { Op : string; Path : string; Value : value }.

Inductive result (A : Type) : Type :=
  | Ok (a : A)
  | Err (msg : string).
Arguments Ok {A} a.
Arguments Err {A} msg.

(** ** Constants *)

Definition NamespaceSystem : string := "kube-system".
Definition NamespacePublic : string := "kube-public".

Definition ignoredNamespaces : list string :=
  [NamespaceSystem; NamespacePublic].

Definition admissionWebhookAnnotationInjectKey : string :=
  "simple-sidecar.centml.ai/inject".
Definition admissionWebhookAnnotationStatusKey : string :=
  "simple-sidecar.cemtml.ai/status".

(** ** Go map reads *)

(** [m[k]]: the zero value when the map is nil or has no entry for [k]. *)
Definition index (m : option (gmap string string)) (k : string) : string :=
  match m with
  | Some entries => default "" (entries !! k)
  | None => ""
  end.

(** [v, ok := m[k]]. *)
Definition index_ok (m : option (gmap string string)) (k : string)
  : option string :=
  match m with
  | Some entries => entries !! k
  | None => None
  end.

(** ** Library functions *)

Class Strings := { strings_ToLower : string → string }.

(** ** The mutation policy *)

(** The loop over [ignoredList], which returns at the first match. *)
Fixpoint inIgnoredList (ignoredList : list string) (ns : string) : bool :=
  match ignoredList with
  | [] => false
  | namespace :: rest =>
      if String.eqb ns namespace then true else inIgnoredList rest ns
  end.

Definition mutationRequired `{Strings} (ignoredList : list string)
    (metadata : ObjectMeta.t) : bool * string :=
  if inIgnoredList ignoredList (ObjectMeta.Namespace metadata)
  then (false, "")
  else
    let annotations :=
      match ObjectMeta.GetAnnotations metadata with
      | None => Some ∅
      | Some a => Some a
      end in
    let status := index annotations admissionWebhookAnnotationStatusKey in
    if String.eqb (strings_ToLower status) "injected"
    then (false, "")
    else
      match index_ok annotations admissionWebhookAnnotationInjectKey with
      | Some val => (true, val)
      | None => (false, "")
      end.

(** ** The patch builders *)

(** [fmt.Sprintf("%d", i)] for a slice index. *)
Definition Sprintf_d (i : nat) : string := pretty i.

(** [for i := range xs]: the indices with the elements they select. *)
Definition enumerate {A : Type} (xs : list A) : list (nat * A) :=
  zip (seq 0 (length xs)) xs.

(** The body of the loop of [addContainer]: the state is the flag [first]
    and the patch built so far. *)
Definition addContainer_step (basePath : string)
    (st : bool * list patchOperation) (add : Container.t)
  : bool * list patchOperation :=
  let '(first, patch) := st in
  if first
  then (false, patch ++ [mkOp "add" basePath (VContainers [add])])
  else (first, patch ++ [mkOp "add" (basePath +:+ "/-") (VContainer add)]).

Definition addContainer (target added : list Container.t) (basePath : string)
  : list patchOperation :=
  snd (fold_left (addContainer_step basePath) added
         (bool_decide (length target = 0), [])).

Definition addVolume_step (basePath : string)
    (st : bool * list patchOperation) (add : Volume.t)
  : bool * list patchOperation :=
  let '(first, patch) := st in
  if first
  then (false, patch ++ [mkOp "add" basePath (VVolumes [add])])
  else (first, patch ++ [mkOp "add" (basePath +:+ "/-") (VVolume add)]).

Definition addVolume (target added : list Volume.t) (basePath : string)
  : list patchOperation :=
  snd (fold_left (addVolume_step basePath) added
         (bool_decide (length target = 0), [])).

(** The body of the loop of [updateAnnotation]: the state is the variable
    [target], which the first branch overwrites, and the patch built so
    far. *)
Definition updateAnnotation_step
    (st : option (gmap string string) * list patchOperation)
    (entry : string * string)
  : option (gmap string string) * list patchOperation :=
  let '(target, patch) := st in
  let '(key, value) := entry in
  if bool_decide (target = None) || String.eqb (index target key) ""
  then (Some ∅,
        patch ++ [mkOp "add" "/metadata/annotations"
                       (VStringMap {[ key := value ]})])
  else (target,
        patch ++ [mkOp "replace" ("/metadata/annotations/" +:+ key)
                       (VString value)]).

(** [added] lists the entries of the Go map in the order in which [range]
    visits them. *)
Definition updateAnnotation (target : option (gmap string string))
    (added : list (string * string)) : list patchOperation :=
  snd (fold_left updateAnnotation_step added (target, [])).

(** [order] is a possible visiting order of the map [m]. *)
Definition visits (m : gmap string string) (order : list (string * string))
  : Prop :=
  order ≡ₚ map_to_list m.

Definition volumeMountPath (i : nat) : string :=
  "/spec/containers/" +:+ Sprintf_d i +:+ "/volumeMounts/-".

Definition addVolumeMounts (pod : Pod.t) (vms : list VolumeMount.t)
  : list patchOperation :=
  fold_left
    (λ patch i,
       fold_left
         (λ patch vm, patch ++ [mkOp "add" (volumeMountPath i) (VVolumeMount vm)])
         vms patch)
    (seq 0 (length (PodSpec.Containers (Pod.Spec pod)))) [].

Definition envPath (i : nat) : string :=
  "/spec/containers/" +:+ Sprintf_d i +:+ "/env".

Definition envAppendPath (i : nat) : string :=
  "/spec/containers/" +:+ Sprintf_d i +:+ "/env/-".

(** The body of the outer loop of [addEnvVars] for the container at [i]. *)
Definition addEnvVars_step (envVars : list EnvVar.t)
    (patch : list patchOperation) (ic : nat * Container.t)
  : list patchOperation :=
  let '(i, c) := ic in
  let patch :=
    match Container.Env c with
    | None => patch ++ [mkOp "add" (envPath i) (VEnvVars [])]
    | Some _ => patch
    end in
  fold_left
    (λ patch envVar, patch ++ [mkOp "add" (envAppendPath i) (VEnvVar envVar)])
    envVars patch.

Definition addEnvVars (pod : Pod.t) (envVars : list EnvVar.t)
  : list patchOperation :=
  if bool_decide (length envVars = 0)
  then []
  else fold_left (addEnvVars_step envVars)
         (enumerate (PodSpec.Containers (Pod.Spec pod))) [].

(** The value of the variable [patch] of [createPatch] when it is handed to
    [json.Marshal]. *)
Definition patchOps (pod : Pod.t) (sidecarConfig : Config.t)
    (annotations : list (string * string)) : list patchOperation :=
  let patch := [] in
  let patch := patch ++ addVolumeMounts pod (Config.VolumeMounts sidecarConfig) in
  let patch := patch ++ addEnvVars pod (Config.EnvVars sidecarConfig) in
  let patch := patch ++ addContainer (PodSpec.InitContainers (Pod.Spec pod))
                          (Config.InitContainers sidecarConfig)
                          "/spec/initContainers" in
  let patch := patch ++ addContainer (PodSpec.Containers (Pod.Spec pod))
                          (Config.Containers sidecarConfig)
                          "/spec/containers" in
  let patch := patch ++ addVolume (PodSpec.Volumes (Pod.Spec pod))
                          (Config.Volumes sidecarConfig)
                          "/spec/volumes" in
  let patch := patch ++ updateAnnotation (Pod.Annotations pod) annotations in
  patch.

(** ** The orchestrator *)

(** The encoders and the decoder, over the type [Bytes] of encoded
    documents. *)
Class Codec (Bytes : Type) := {
  json_Unmarshal : Bytes → result Pod.t;
  yaml_Marshal : Config.t → result Bytes;
  json_Marshal : list patchOperation → result Bytes
}.

Record AdmissionResponse (Bytes : Type) := mkResponse {
  Allowed : bool;
  Result : option string;
  Patch : option Bytes;
  PatchType : option string
}.
Arguments mkResponse {Bytes} Allowed Result Patch PatchType.
Arguments Allowed {Bytes} a.
Arguments Result {Bytes} a.
Arguments Patch {Bytes} a.
Arguments PatchType {Bytes} a.

Definition PatchTypeJSONPatch : string := "JSONPatch".

Record WebhookServer := mkServer { sidecarConfigs : MultiConfig }.

Definition createPatch `{Codec Bytes} (pod : Pod.t) (sidecarConfig : Config.t)
    (annotations : list (string * string)) : result Bytes :=
  match yaml_Marshal sidecarConfig with
  | Err msg => Err msg
  | Ok cbytes => json_Marshal (patchOps pod sidecarConfig annotations)
  end.

(** [raw] is [ar.Request.Object.Raw]. *)
Definition mutate `{Strings} `{Codec Bytes} (whs : WebhookServer) (raw : Bytes)
  : AdmissionResponse Bytes :=
  match json_Unmarshal raw with
  | Err msg => mkResponse false (Some msg) None None
  | Ok pod =>
      let '(required, mut) :=
        mutationRequired ignoredNamespaces (Pod.ObjectMeta pod) in
      if negb required
      then mkResponse true None None None
      else
        match sidecarConfigs whs !! mut with
        | None => mkResponse true None None None
        | Some config =>
            let annotations :=
              [(admissionWebhookAnnotationStatusKey, "injected")] in
            match createPatch pod config annotations with
            | Err msg => mkResponse false (Some msg) None None
            | Ok patchBytes =>
                mkResponse true None (Some patchBytes) (Some PatchTypeJSONPatch)
            end
        end
  end.

(** The response that admits the pod as it is. *)
Definition allowUnchanged {Bytes : Type} : AdmissionResponse Bytes :=
  mkResponse true None None None.

(** ** A concrete library, to run the model *)

(** [strings.ToLower] on ASCII text: the letters A to Z are mapped to a to z
    and every other byte is kept. *)
Definition lowerByte (c : ascii) : ascii :=
  let n := N_of_ascii c in
  if (65 <=? n)%N && (n <=? 90)%N then ascii_of_N (n + 32) else c.

Fixpoint asciiToLower (s : string) : string :=
  match s with
  | EmptyString => EmptyString
  | String c rest => String (lowerByte c) (asciiToLower rest)
  end.

Definition asciiStrings : Strings := {| strings_ToLower := asciiToLower |}.

(** Documents kept as syntax trees: encoding wraps a value and decoding
    unwraps it. *)
Inductive doc : Type :=
  | DocPod (pod : Pod.t)
  | DocConfig (c : Config.t)
  | DocPatch (ops : list patchOperation)
  | DocText (s : string).

Definition treeCodec : Codec doc := {|
  json_Unmarshal raw :=
    match raw with
    | DocPod pod => Ok pod
    | _ => Err "json: cannot unmarshal into Go value of type v1.Pod"
    end;
  yaml_Marshal c := Ok (DocConfig c);
  json_Marshal ops := Ok (DocPatch ops)
|}.

(** ** Auxiliary notions for the properties *)

(** The characters that [Sprintf_d] produces. *)
Definition isDigit (c : ascii) : Prop := ∃ n : N, c = pretty_N_char n.

Fixpoint allDigits (s : string) : Prop :=
  match s with
  | EmptyString => True
  | String c rest => isDigit c ∧ allDigits rest
  end.

Definition appendContainerOp (basePath : string) (c : Container.t) : patchOperation :=
  mkOp "add" (basePath +:+ "/-") (VContainer c).

Definition appendVolumeOp (basePath : string) (v : Volume.t) : patchOperation :=
  mkOp "add" (basePath +:+ "/-") (VVolume v).

Definition volumeMountOp (i : nat) (vm : VolumeMount.t) : patchOperation :=
  mkOp "add" (volumeMountPath i) (VVolumeMount vm).

Definition envVarOp (i : nat) (envVar : EnvVar.t) : patchOperation :=
  mkOp "add" (envAppendPath i) (VEnvVar envVar).

Definition envGuardOps (i : nat) (c : Container.t) : list patchOperation :=
  match Container.Env c with
  | None => [mkOp "add" (envPath i) (VEnvVars [])]
  | Some _ => []
  end.

Definition addAnnotationOp (entry : string * string) : patchOperation :=
  mkOp "add" "/metadata/annotations" (VStringMap {[ entry.1 := entry.2 ]}).

Definition replaceAnnotationOp (entry : string * string) : patchOperation :=
  mkOp "replace" ("/metadata/annotations/" +:+ entry.1) (VString entry.2).

(** The test of [updateAnnotation] on the map [target] and a key. *)
Definition lacksValue (target : option (gmap string string)) (key : string) : bool :=
  bool_decide (target = None) || String.eqb (index target key) "".

(** The operations of a patch that address the container list itself. *)
Definition containerListOps (patch : list patchOperation) : list patchOperation :=
  filter (λ op, Path op ∈ ["/spec/containers"; "/spec/containers/-"]) patch.

(** Stated from the spec: without existing containers a non-empty injected
    list gives one "add" at /spec/containers whose value is the whole list;
    with existing containers every injected container gives an "add" at
    /spec/containers/-, in the declared order. *)
Definition wholeListRule (pod : Pod.t) (cfg : Config.t)
    (annotations : list (string * string)) : Prop :=
  (PodSpec.Containers (Pod.Spec pod) = [] → Config.Containers cfg ≠ [] →
   filter (λ op, Path op = "/spec/containers") (patchOps pod cfg annotations)
   = [mkOp "add" "/spec/containers" (VContainers (Config.Containers cfg))])
  ∧ (PodSpec.Containers (Pod.Spec pod) ≠ [] →
     containerListOps (patchOps pod cfg annotations)
     = map (appendContainerOp "/spec/containers") (Config.Containers cfg)).

(** Stated from the spec: every entry of the bookkeeping mapping is judged
    against the pod's current annotations. *)
Definition annotationRule (current : option (gmap string string))
    (entry : string * string) : patchOperation :=
  if lacksValue current entry.1
  then addAnnotationOp entry
  else replaceAnnotationOp entry.

(** ** Applying a patch

    The API server applies the patch of the response to the pod as a JSON
    Patch (RFC 6902) whose paths are JSON Pointers (RFC 6901).  This is not
    code of the package.  The model covers the part of the pod that the
    policy reads, its metadata, and the operations that the package emits. *)

(** The pieces of a string between its slashes. *)
Fixpoint splitSlash (s : string) : list string :=
  match s with
  | EmptyString => [EmptyString]
  | String c rest =>
      if Ascii.eqb c "/" then EmptyString :: splitSlash rest
      else match splitSlash rest with
           | token :: tokens => String c token :: tokens
           | [] => [String c EmptyString]
           end
  end.

(** In a reference token "~1" stands for a slash and "~0" for a tilde. *)
Fixpoint unescape (token : string) : string :=
  match token with
  | EmptyString => EmptyString
  | String c rest =>
      match rest with
      | String d rest' =>
          if Ascii.eqb c "~" && Ascii.eqb d "1" then String "/" (unescape rest')
          else if Ascii.eqb c "~" && Ascii.eqb d "0" then String "~" (unescape rest')
          else String c (unescape rest)
      | EmptyString => String c EmptyString
      end
  end.

(** The reference tokens of a JSON Pointer: the empty pointer names the whole
    document, any other pointer starts with a slash. *)
Definition referenceTokens (path : string) : option (list string) :=
  match path with
  | EmptyString => Some []
  | String c rest =>
      if Ascii.eqb c "/" then Some (map unescape (splitSlash rest)) else None
  end.

Definition setAnnotations (meta : ObjectMeta.t)
    (annotations : option (gmap string string)) : ObjectMeta.t :=
  ObjectMeta.mk (ObjectMeta.Name meta) (ObjectMeta.Namespace meta) annotations.

(** An operation on the member "annotations" of the metadata: "add" sets the
    member, "replace" asks that it exists. *)
Definition applyToAnnotations (op : patchOperation) (meta : ObjectMeta.t)
  : option ObjectMeta.t :=
  match Value op with
  | VStringMap m =>
      if String.eqb (Op op) "add" then Some (setAnnotations meta (Some m))
      else if String.eqb (Op op) "replace" then
        match ObjectMeta.Annotations meta with
        | Some _ => Some (setAnnotations meta (Some m))
        | None => None
        end
      else None
  | _ => None
  end.

(** An operation on the annotation [key]: the mapping has to exist, and
    "replace" asks that the key has a value. *)
Definition applyToAnnotation (key : string) (op : patchOperation)
    (meta : ObjectMeta.t) : option ObjectMeta.t :=
  match Value op, ObjectMeta.Annotations meta with
  | VString v, Some entries =>
      if String.eqb (Op op) "add"
      then Some (setAnnotations meta (Some (<[ key := v ]> entries)))
      else if String.eqb (Op op) "replace" then
        match entries !! key with
        | Some _ => Some (setAnnotations meta (Some (<[ key := v ]> entries)))
        | None => None
        end
      else None
  | _, _ => None
  end.

(** The effect of one operation on the metadata.  An operation below "spec"
    leaves the metadata as it is; whether it applies is decided by the pod
    spec, which the model does not cover, so that a result [Some _] stands
    for: the patch applies provided that its operations below "spec" do.
    The value of an annotation is a string: a pointer that continues below
    it names nothing. *)
Definition applyOperation (op : patchOperation) (meta : ObjectMeta.t)
  : option ObjectMeta.t :=
  match referenceTokens (Path op) with
  | Some (first :: rest) =>
      if String.eqb first "spec" then Some meta
      else if String.eqb first "metadata" then
        match rest with
        | [member] =>
            if String.eqb member "annotations"
            then applyToAnnotations op meta else None
        | [member; key] =>
            if String.eqb member "annotations"
            then applyToAnnotation key op meta else None
        | _ => None
        end
      else None
  | _ => None
  end.

(** The operations are applied in order; the patch fails when one of them
    does. *)
Definition applyPatch (ops : list patchOperation) (meta : ObjectMeta.t)
  : option ObjectMeta.t :=
  fold_left (λ acc op, acc ≫= applyOperation op) ops (Some meta).

(** The entry that [mutate] hands to [createPatch]. *)
Definition statusEntry : string * string :=
  (admissionWebhookAnnotationStatusKey, "injected").

(** ** Sample objects *)

Definition sidecar : Container.t := Container.mk "sidecar" "busybox" None None.
Definition logger : Container.t := Container.mk "logger" "fluentd" None None.
Definition app : Container.t := Container.mk "app" "nginx" None (Some []).
Definition db : Container.t :=
  Container.mk "db" "postgres" (Some [EnvVar.mk "PGDATA" "/data"]) (Some []).

Definition webConfig : Config.t :=
  Config.mk [] [sidecar; logger] [Volume.mk "scratch"] []
    [VolumeMount.mk "scratch" "/scratch"].

Definition emptyConfig : Config.t := Config.mk [] [] [] [] [].

Definition webServer : WebhookServer :=
  mkServer {[ "web" := webConfig; "none" := emptyConfig ]}.

Definition injectWeb : gmap string string :=
  {[ admissionWebhookAnnotationInjectKey := "web" ]}.

Definition barePod : Pod.t :=
  Pod.mk (ObjectMeta.mk "bare" "default" (Some injectWeb)) (PodSpec.mk [] [] []).

Definition appPod : Pod.t :=
  Pod.mk (ObjectMeta.mk "app" "default" (Some injectWeb))
    (PodSpec.mk [] [app; db] []).

Definition markedPod : Pod.t :=
  Pod.mk (ObjectMeta.mk "marked" "default"
            (Some (<[ admissionWebhookAnnotationStatusKey := "Injected" ]> injectWeb)))
    (PodSpec.mk [] [app] []).

Definition systemPod : Pod.t :=
  Pod.mk (ObjectMeta.mk "dns" "kube-system" (Some injectWeb))
    (PodSpec.mk [] [app] []).

Definition strayPod : Pod.t :=
  Pod.mk (ObjectMeta.mk "stray" "default"
            (Some {[ admissionWebhookAnnotationInjectKey := "missing" ]}))
    (PodSpec.mk [] [app] []).

Definition plainPod : Pod.t :=
  Pod.mk (ObjectMeta.mk "plain" "default" None) (PodSpec.mk [] [app] []).

Definition pendingPod : Pod.t :=
  Pod.mk (ObjectMeta.mk "pending" "default"
            (Some (<[ admissionWebhookAnnotationStatusKey := "pending" ]> injectWeb)))
    (PodSpec.mk [] [app] []).

Definition emptyValueMeta : ObjectMeta.t :=
  ObjectMeta.mk "empty" "default"
    (Some {[ admissionWebhookAnnotationInjectKey := "" ]}).

(** ** The HTTP handler *)

(** The part of an admission request that the package reads. *)
Record AdmissionRequest (Bytes : Type) := mkRequest {
  Request_UID : string;
  Object_Raw : Bytes
}.
Arguments mkRequest {Bytes} Request_UID Object_Raw.
Arguments Request_UID {Bytes} a.
Arguments Object_Raw {Bytes} a.

(** The response as it sits in a review: [Serve] sets the field [UID], which
    [mutate] leaves empty; it is kept beside the other fields. *)
Record ReviewResponse (Bytes : Type) := mkReviewResponse {
  Response_UID : string;
  Response_Body : AdmissionResponse Bytes
}.
Arguments mkReviewResponse {Bytes} Response_UID Response_Body.
Arguments Response_UID {Bytes} r.
Arguments Response_Body {Bytes} r.

Record AdmissionReview (Bytes : Type) := mkReview {
  APIVersion : string;
  Kind : string;
  Request : option (AdmissionRequest Bytes);
  Response : option (ReviewResponse Bytes)
}.
Arguments mkReview {Bytes} APIVersion Kind Request Response.
Arguments APIVersion {Bytes} a.
Arguments Kind {Bytes} a.
Arguments Request {Bytes} a.
Arguments Response {Bytes} a.

(** What [Serve] needs from the transport: the length of a byte slice, the
    deserializer, which fills a review and may report an error, and the
    encoder of the outgoing review. *)
Class Transport (Bytes : Type) := {
  len : Bytes → nat;
  deserializer_Decode : Bytes → AdmissionReview Bytes * option string;
  json_Marshal_review : AdmissionReview Bytes → result Bytes
}.

(** The request as [Serve] reads it: [Body] is [None] for a nil body and
    holds the outcome of [io.ReadAll] otherwise; [ContentType] is
    [r.Header.Get("Content-Type")]. *)
Record HttpRequest (Bytes : Type) := mkHttpRequest {
  Body : option (result Bytes);
  ContentType : string
}.
Arguments mkHttpRequest {Bytes} Body ContentType.
Arguments Body {Bytes} h.
Arguments ContentType {Bytes} h.

(** The calls that [Serve] makes on the response writer: [http.Error] with a
    message and a status code, and [w.Write] with a byte slice ([None] is the
    nil slice). *)
Inductive writerCall (Bytes : Type) : Type :=
  | HttpError (message : string) (code : nat)
  | Write (data : option Bytes).
Arguments HttpError {Bytes} message code.
Arguments Write {Bytes} data.

(** [Serve] returns after a sequence of calls on the writer, or panics: the
    field [Request] of a review is a pointer, and [mutate] reads through
    it. *)
Inductive outcome (Bytes : Type) : Type :=
  | Returned (calls : list (writerCall Bytes))
  | Panicked.
Arguments Returned {Bytes} calls.
Arguments Panicked {Bytes}.

Definition StatusBadRequest : nat := 400.
Definition StatusUnsupportedMediaType : nat := 415.
Definition StatusInternalServerError : nat := 500.

(** [w_Write] gives the error, if any, with which [w.Write] answers. *)
Definition Serve `{Strings} `{Codec Bytes} `{Transport Bytes}
    (whs : WebhookServer) (w_Write : option Bytes → option string)
    (r : HttpRequest Bytes) : outcome Bytes :=
  let body : option Bytes :=
    match Body r with
    | Some (Ok data) => Some data
    | _ => None
    end in
  match body with
  | None => Returned [HttpError "empty body" StatusBadRequest]
  | Some data =>
      if Nat.eqb (len data) 0
      then Returned [HttpError "empty body" StatusBadRequest]
      else if negb (String.eqb (ContentType r) "application/json")
      then Returned [HttpError "invalid Content-Type, expect `application/json`"
                       StatusUnsupportedMediaType]
      else
        let '(ar, err) := deserializer_Decode data in
        let admissionResponse :=
          match err with
          | Some msg => Some (mkResponse false (Some msg) None None)
          | None =>
              match Request ar with
              | Some req => Some (mutate whs (Object_Raw req))
              | None => None
              end
          end in
        match admissionResponse with
        | None => Panicked
        | Some response =>
            let uid :=
              match Request ar with
              | Some req => Request_UID req
              | None => ""
              end in
            let admissionReview :=
              mkReview "admission.k8s.io/v1" "AdmissionReview" None
                (Some (mkReviewResponse uid response)) in
            let '(resp, reported) :=
              match json_Marshal_review admissionReview with
              | Err msg =>
                  (None, [HttpError ("could not encode response: " +:+ msg)
                            StatusInternalServerError])
              | Ok resp => (Some resp, [])
              end in
            match w_Write resp with
            | Some msg =>
                Returned (reported ++
                          [Write resp;
                           HttpError ("could not write response: " +:+ msg)
                             StatusInternalServerError])
            | None => Returned (reported ++ [Write resp])
            end
        end
  end.

(** Documents of the handler kept as syntax trees. *)
#[local] Unset Elimination Schemes.
Inductive wire : Type :=
  | WirePod (pod : Pod.t)
  | WireConfig (c : Config.t)
  | WirePatch (ops : list patchOperation)
  | WireReview (request : option (string * wire))
  | WireAnswer (uid : string) (response : AdmissionResponse wire)
  | WireText (s : string).
#[local] Set Elimination Schemes.

Definition wireCodec : Codec wire := {|
  json_Unmarshal raw :=
    match raw with
    | WirePod pod => Ok pod
    | _ => Err "json: cannot unmarshal into Go value of type v1.Pod"
    end;
  yaml_Marshal c := Ok (WireConfig c);
  json_Marshal ops := Ok (WirePatch ops)
|}.

Definition wireTransport : Transport wire := {|
  len data :=
    match data with
    | WireText s => String.length s
    | _ => 1
    end;
  deserializer_Decode data :=
    match data with
    | WireReview (Some (uid, raw)) =>
        (mkReview "admission.k8s.io/v1" "AdmissionReview"
           (Some (mkRequest uid raw)) None, None)
    | WireReview None =>
        (mkReview "admission.k8s.io/v1" "AdmissionReview" None None, None)
    | _ => (mkReview "" "" None None, Some "couldn't get version/kind")
    end;
  json_Marshal_review review :=
    match Response review with
    | Some answer => Ok (WireAnswer (Response_UID answer) (Response_Body answer))
    | None => Err "json: no response"
    end
|}.

(** A writer that accepts every write. *)
Definition goodWriter {Bytes : Type} : option Bytes → option string :=
  λ _, None.

(** ** Auxiliary notions for the further properties *)

(** The containers and the volumes that the value of an operation carries. *)
Definition containersOf (v : value) : list Container.t :=
  match v with
  | VContainer c => [c]
  | VContainers cs => cs
  | _ => []
  end.

Definition volumesOf (v : value) : list Volume.t :=
  match v with
  | VVolume vol => [vol]
  | VVolumes vols => vols
  | _ => []
  end.

(** The operations of a patch that address the init container list, the
    volume list, the volume mounts of the container at [i] and its
    environment. *)
Definition initContainerListOps (patch : list patchOperation) : list patchOperation :=
  filter (λ op, Path op ∈ ["/spec/initContainers"; "/spec/initContainers/-"]) patch.

Definition volumeListOps (patch : list patchOperation) : list patchOperation :=
  filter (λ op, Path op ∈ ["/spec/volumes"; "/spec/volumes/-"]) patch.

Definition volumeMountOpsAt (i : nat) (patch : list patchOperation)
  : list patchOperation :=
  filter (λ op, Path op = volumeMountPath i) patch.

Definition envOpsAt (i : nat) (patch : list patchOperation) : list patchOperation :=
  filter (λ op, Path op ∈ [envPath i; envAppendPath i]) patch.

(** The number of containers without an [env] field. *)
Definition countNilEnv (cs : list Container.t) : nat :=
  length (filter (λ c, Container.Env c = None) cs).

(** What the builders read of a pod: for each container whether its [env]
    field is nil, whether there are init containers and volumes, and the
    annotations. *)
Definition sameShape (pod1 pod2 : Pod.t) : Prop :=
  map (λ c, bool_decide (Container.Env c = None)) (PodSpec.Containers (Pod.Spec pod1))
  = map (λ c, bool_decide (Container.Env c = None)) (PodSpec.Containers (Pod.Spec pod2))
  ∧ (PodSpec.InitContainers (Pod.Spec pod1) = [] ↔ PodSpec.InitContainers (Pod.Spec pod2) = [])
  ∧ (PodSpec.Volumes (Pod.Spec pod1) = [] ↔ PodSpec.Volumes (Pod.Spec pod2) = [])
  ∧ Pod.Annotations pod1 = Pod.Annotations pod2.

(** What the writer receives.  [http.Error] (net/http, not code of the
    package) sets the status with [w.WriteHeader] and then hands the message
    and a line feed to [w.Write]; the header fields that it sets are left
    out.  A call [w.Write] of [Serve] hands over its slice. *)
Inductive writerEvent (Bytes : Type) : Type :=
  | WriteHeader (code : nat)
  | WriteText (text : string)
  | WriteSlice (data : option Bytes).
Arguments WriteHeader {Bytes} code.
Arguments WriteText {Bytes} text.
Arguments WriteSlice {Bytes} data.

Definition lineFeed : string := String "010"%char EmptyString.

Definition received {Bytes : Type} (calls : list (writerCall Bytes))
  : list (writerEvent Bytes) :=
  flat_map
    (λ call, match call with
             | HttpError message code =>
                 [WriteHeader code; WriteText (message +:+ lineFeed)]
             | Write data => [WriteSlice data]
             end)
    calls.

(** The number of times the writer is given a status, a body (a text or a
    slice), and a slice. *)
Definition statusCount {Bytes : Type} (events : list (writerEvent Bytes)) : nat :=
  length (List.filter (λ e, match e with WriteHeader _ => true | _ => false end) events).

Definition bodyCount {Bytes : Type} (events : list (writerEvent Bytes)) : nat :=
  length (List.filter (λ e, match e with WriteHeader _ => false | _ => true end) events).

Definition sliceCount {Bytes : Type} (events : list (writerEvent Bytes)) : nat :=
  length (List.filter (λ e, match e with WriteSlice _ => true | _ => false end) events).

(** The review that [Serve] encodes for a decoded review [ar] and a
    response. *)
Definition answerFor {Bytes : Type} (ar : AdmissionReview Bytes)
    (response : AdmissionResponse Bytes) : AdmissionReview Bytes :=
  mkReview "admission.k8s.io/v1" "AdmissionReview" None
    (Some (mkReviewResponse
             (match Request ar with Some req => Request_UID req | None => "" end)
             response)).

(** ** Sample requests *)

Definition reviewOf (pod : Pod.t) : wire :=
  WireReview (Some ("705ab4f5-6393-11e8-b7cc-42010a800002", WirePod pod)).

Definition goodRequest : HttpRequest wire :=
  mkHttpRequest (Some (Ok (reviewOf appPod))) "application/json".

Definition noBodyRequest : HttpRequest wire :=
  mkHttpRequest None "application/json".

Definition textRequest : HttpRequest wire :=
  mkHttpRequest (Some (Ok (reviewOf appPod))) "text/plain".

Definition emptyReviewRequest : HttpRequest wire :=
  mkHttpRequest (Some (Ok (WireReview None))) "application/json".

(** A pod of the shape of [appPod] with other names, images and a mount. *)
Definition twinPod : Pod.t :=
  Pod.mk (ObjectMeta.mk "twin" "staging" (Some injectWeb))
    (PodSpec.mk []
       [Container.mk "api" "golang" None (Some [VolumeMount.mk "tmp" "/tmp"]);
        Container.mk "cache" "redis" (Some []) None]
       []).

(** * Properties *)

(** ** The policy *)

Section PolicyFacts.

Context `{Strings}.

Lemma inIgnoredList_elem (ignoredList : list string) (ns : string) :
  inIgnoredList ignoredList ns = true ↔ ns ∈ ignoredList.
Proof.
  induction ignoredList as [|namespace rest IH]; simpl.
  - split; [discriminate | intros Hin; inversion Hin].
  - destruct (String.eqb ns namespace) eqn:Heq.
    + apply String.eqb_eq in Heq as ->. split; [intros _; left | done].
    + apply String.eqb_neq in Heq. rewrite IH. split.
      * intros Hin. by right.
      * intros Hin. apply elem_of_cons in Hin as [? | ?]; [congruence | done].
Qed.

Lemma inIgnoredList_not_elem (ignoredList : list string) (ns : string) :
  inIgnoredList ignoredList ns = false ↔ ns ∉ ignoredList.
Proof.
  rewrite <- inIgnoredList_elem. destruct (inIgnoredList ignoredList ns); naive_solver.
Qed.

(** Replacing the nil map by an empty one changes no read. *)
Lemma index_nil_empty (m : option (gmap string string)) (k : string) :
  index (match m with None => Some ∅ | Some a => Some a end) k = index m k.
Proof. destruct m; simpl; [done | by rewrite lookup_empty]. Qed.

Lemma index_ok_nil_empty (m : option (gmap string string)) (k : string) :
  index_ok (match m with None => Some ∅ | Some a => Some a end) k = index_ok m k.
Proof. destruct m; simpl; [done | by rewrite lookup_empty]. Qed.

(** The decision, branch by branch, on the fields that it reads. *)
Lemma mutationRequired_unfold (ignoredList : list string) (meta : ObjectMeta.t) :
  mutationRequired ignoredList meta =
    if inIgnoredList ignoredList (ObjectMeta.Namespace meta) then (false, "")
    else if String.eqb
              (strings_ToLower
                 (index (ObjectMeta.Annotations meta)
                    admissionWebhookAnnotationStatusKey))
              "injected"
    then (false, "")
    else match index_ok (ObjectMeta.Annotations meta)
                 admissionWebhookAnnotationInjectKey with
         | Some val => (true, val)
         | None => (false, "")
         end.
Proof.
  unfold mutationRequired, ObjectMeta.GetAnnotations.
  by rewrite index_nil_empty, index_ok_nil_empty.
Qed.

Lemma mutationRequired_false_key (ignoredList : list string) (meta : ObjectMeta.t) :
  fst (mutationRequired ignoredList meta) = false →
  snd (mutationRequired ignoredList meta) = "".
Proof.
  rewrite mutationRequired_unfold.
  repeat case_match; simpl; congruence.
Qed.

Context `{Codec Bytes}.

Lemma mutate_not_required (whs : WebhookServer) (raw : Bytes) (pod : Pod.t) :
  json_Unmarshal raw = Ok pod →
  fst (mutationRequired ignoredNamespaces (Pod.ObjectMeta pod)) = false →
  mutate whs raw = allowUnchanged.
Proof.
  intros Hraw Hreq. unfold mutate. rewrite Hraw.
  destruct (mutationRequired _ _) as [required mut]. simpl in Hreq.
  by rewrite Hreq.
Qed.

(** C3: a pod whose namespace is in the ignored list is not mutated, whatever
    its annotations: the evaluator answers "not required" for every ignored
    list that holds the namespace, and [mutate], which passes
    [ignoredNamespaces], admits a pod of one of those namespaces unchanged. *)
Theorem ignored_namespace_not_mutated
    (ignoredList : list string) (whs : WebhookServer) (raw : Bytes) (pod : Pod.t) :
  json_Unmarshal raw = Ok pod →
  Pod.Namespace pod ∈ ignoredList →
  mutationRequired ignoredList (Pod.ObjectMeta pod) = (false, "")
  ∧ (Pod.Namespace pod ∈ ignoredNamespaces → mutate whs raw = allowUnchanged).
Proof.
  intros Hraw Hin.
  assert (∀ l, Pod.Namespace pod ∈ l →
               mutationRequired l (Pod.ObjectMeta pod) = (false, "")) as Hreq.
  { intros l Hl. apply inIgnoredList_elem in Hl. unfold Pod.Namespace in Hl.
    unfold mutationRequired. by rewrite Hl. }
  split; [by apply Hreq |]. intros Hsys.
  apply (mutate_not_required whs raw pod Hraw). by rewrite Hreq.
Qed.

(** C2: a pod whose status annotation reads "injected" once lowered is not
    mutated, also when it carries the inject annotation: the evaluator answers
    "not required" and [mutate] admits the pod unchanged. *)
Theorem injected_status_not_mutated
    (ignoredList : list string) (whs : WebhookServer) (raw : Bytes) (pod : Pod.t) :
  json_Unmarshal raw = Ok pod →
  strings_ToLower
    (index (Pod.Annotations pod) admissionWebhookAnnotationStatusKey) = "injected" →
  mutationRequired ignoredList (Pod.ObjectMeta pod) = (false, "")
  ∧ mutate whs raw = allowUnchanged.
Proof.
  intros Hraw Hstatus. unfold Pod.Annotations in Hstatus.
  assert (∀ l, mutationRequired l (Pod.ObjectMeta pod) = (false, "")) as Hreq.
  { intros l. rewrite mutationRequired_unfold, Hstatus. simpl.
    by destruct (inIgnoredList _ _). }
  split; [apply Hreq |].
  apply (mutate_not_required whs raw pod Hraw). by rewrite Hreq.
Qed.

(** C5: for metadata outside the ignored namespaces and not marked injected,
    an inject annotation with value [val], the empty string included, makes
    the decision (true, val); without the inject annotation the decision is
    (false, ""); and a nil annotation map is read as an empty one. *)
Theorem inject_annotation_decides
    (ignoredList : list string) (meta : ObjectMeta.t) :
  ObjectMeta.Namespace meta ∉ ignoredList →
  strings_ToLower
    (index (ObjectMeta.Annotations meta) admissionWebhookAnnotationStatusKey)
    ≠ "injected" →
  (∀ val, index_ok (ObjectMeta.Annotations meta)
            admissionWebhookAnnotationInjectKey = Some val →
          mutationRequired ignoredList meta = (true, val))
  ∧ (index_ok (ObjectMeta.Annotations meta)
       admissionWebhookAnnotationInjectKey = None →
     mutationRequired ignoredList meta = (false, ""))
  ∧ (ObjectMeta.Annotations meta = None →
     mutationRequired ignoredList meta
     = mutationRequired ignoredList
         (ObjectMeta.mk (ObjectMeta.Name meta) (ObjectMeta.Namespace meta) (Some ∅))
     ∧ mutationRequired ignoredList meta = (false, "")).
Proof.
  intros Hns Hstatus.
  apply inIgnoredList_not_elem in Hns. apply String.eqb_neq in Hstatus.
  split_and!.
  - intros val Hval. by rewrite mutationRequired_unfold, Hns, Hstatus, Hval.
  - intros Hnone. by rewrite mutationRequired_unfold, Hns, Hstatus, Hnone.
  - intros Hnil. rewrite !mutationRequired_unfold. simpl.
    rewrite Hns. rewrite Hnil in *. simpl in *. rewrite lookup_empty. simpl.
    rewrite Hstatus. done.
Qed.

(** C6: when the decision names a profile key that the registry lacks,
    [mutate] admits the pod unchanged: allowed, without patch and without a
    status message. *)
Theorem unknown_profile_allowed
    (whs : WebhookServer) (raw : Bytes) (pod : Pod.t) (mut : string) :
  json_Unmarshal raw = Ok pod →
  mutationRequired ignoredNamespaces (Pod.ObjectMeta pod) = (true, mut) →
  sidecarConfigs whs !! mut = None →
  mutate whs raw = mkResponse true None None None
  ∧ Allowed (mutate whs raw) = true
  ∧ Patch (mutate whs raw) = None
  ∧ Result (mutate whs raw) = None.
Proof.
  intros Hraw Hreq Hreg.
  assert (mutate whs raw = mkResponse true None None None) as ->; [| done].
  unfold mutate. rewrite Hraw, Hreq. simpl. by rewrite Hreg.
Qed.

(** C10: the decision reads the namespace and the annotations only: two pods
    that agree on both get the same decision, whatever their names and
    specs; and a decision "not required" carries the empty profile key. *)
Theorem decision_reads_namespace_and_annotations
    (ignoredList : list string) (pod1 pod2 : Pod.t) :
  Pod.Namespace pod1 = Pod.Namespace pod2 →
  Pod.Annotations pod1 = Pod.Annotations pod2 →
  mutationRequired ignoredList (Pod.ObjectMeta pod1)
  = mutationRequired ignoredList (Pod.ObjectMeta pod2)
  ∧ (fst (mutationRequired ignoredList (Pod.ObjectMeta pod1)) = false →
     snd (mutationRequired ignoredList (Pod.ObjectMeta pod1)) = "").
Proof.
  unfold Pod.Namespace, Pod.Annotations. intros Hns Hann. split.
  - by rewrite !mutationRequired_unfold, Hns, Hann.
  - apply mutationRequired_false_key.
Qed.

End PolicyFacts.

(** ** Paths *)

Section PathFacts.

(** Appending to a literal: [simpl] leaves [+:+] alone. *)
Ltac push_app H := cbv beta iota fix delta [String.append] in H.

Lemma isDigit_not_dash (c : ascii) : isDigit c → c ≠ "-"%char.
Proof. intros [n ->]. unfold pretty_N_char. by repeat case_match. Qed.

Lemma isDigit_not_slash (c : ascii) : isDigit c → c ≠ "/"%char.
Proof. intros [n ->]. unfold pretty_N_char. by repeat case_match. Qed.

Lemma pretty_N_go_digits (x : N) (s : string) :
  allDigits s → allDigits (pretty_N_go x s).
Proof.
  revert s. induction (N.lt_wf_0 x) as [x _ IH]; intros s Hs.
  destruct (decide (x = 0)%N) as [-> | Hx]; [by rewrite pretty_N_go_0 |].
  rewrite pretty_N_go_step by lia.
  apply IH; [apply N.div_lt; lia |]. simpl. split; [by eexists | done].
Qed.

Lemma pretty_N_go_nonempty (x : N) (s : string) :
  s ≠ "" → pretty_N_go x s ≠ "".
Proof.
  revert s. induction (N.lt_wf_0 x) as [x _ IH]; intros s Hs.
  destruct (decide (x = 0)%N) as [-> | Hx]; [by rewrite pretty_N_go_0 |].
  rewrite pretty_N_go_step by lia.
  apply IH; [apply N.div_lt; lia | done].
Qed.

Lemma Sprintf_d_digits (i : nat) :
  ∃ c rest, Sprintf_d i = String c rest ∧ isDigit c ∧ allDigits rest.
Proof.
  assert (allDigits (Sprintf_d i) ∧ Sprintf_d i ≠ "") as [Hd Hne].
  { unfold Sprintf_d, pretty, pretty_nat, pretty, pretty_N.
    case_decide as Hi.
    - split; [| done]. simpl. split; [by exists 0%N | done].
    - split; [by apply pretty_N_go_digits |].
      rewrite pretty_N_go_step by lia. by apply pretty_N_go_nonempty. }
  destruct (Sprintf_d i) as [|c rest]; [done |].
  exists c, rest. destruct Hd. done.
Qed.

(** Two digit strings, each followed by a slash, split a string at the same
    place. *)
Lemma digits_slash_inj (d1 d2 r1 r2 : string) :
  allDigits d1 → allDigits d2 →
  d1 +:+ String "/" r1 = d2 +:+ String "/" r2 → d1 = d2 ∧ r1 = r2.
Proof.
  revert d2. induction d1 as [|c1 d1 IH]; intros [|c2 d2]; simpl.
  - intros _ _ [= ->]. done.
  - intros _ [Hc _] [= <- _]. by apply isDigit_not_slash in Hc.
  - intros [Hc _] _ [= -> _]. by apply isDigit_not_slash in Hc.
  - intros [_ H1] [_ H2] [= -> Heq]. destruct (IH d2 H1 H2 Heq) as [-> ->]. done.
Qed.

Lemma Sprintf_d_allDigits (i : nat) : allDigits (Sprintf_d i).
Proof. destruct (Sprintf_d_digits i) as (c & rest & -> & ? & ?). by simpl. Qed.

(** A path that continues below a container index is none of the two
    paths of the container list itself. *)
Lemma indexed_path_not_list (i : nat) (suffix p : string) :
  p ∈ ["/spec/containers"; "/spec/containers/-"] →
  "/spec/containers/" +:+ Sprintf_d i +:+ suffix ≠ p.
Proof.
  destruct (Sprintf_d_digits i) as (c & rest & -> & Hc & _).
  intros Hp Heq. apply isDigit_not_dash in Hc.
  apply elem_of_cons in Hp as [-> | Hp]; [push_app Heq; discriminate |].
  apply list_elem_of_singleton in Hp as ->. push_app Heq.
  injection Heq as Hdash _. congruence.
Qed.

Lemma volumeMountPath_not_env (i j : nat) :
  volumeMountPath i ≠ envPath j ∧ volumeMountPath i ≠ envAppendPath j.
Proof.
  unfold volumeMountPath, envPath, envAppendPath.
  split; intros Heq; push_app Heq; injection Heq as Heq;
    apply digits_slash_inj in Heq as [_ Heq];
    auto using Sprintf_d_allDigits; discriminate.
Qed.

Lemma list_path_not_env (p : string) (j : nat) :
  p ∈ ["/spec/containers"; "/spec/containers/-"] →
  p ≠ envPath j ∧ p ≠ envAppendPath j.
Proof.
  intros Hp. split; intros Heq; symmetry in Heq; revert Heq;
    by apply indexed_path_not_list.
Qed.

End PathFacts.

(** ** The builders in closed form *)

Section BuilderFacts.

Lemma fold_left_snoc {A B : Type} (f : A → B) (xs : list A) (acc : list B) :
  fold_left (λ acc x, acc ++ [f x]) xs acc = acc ++ map f xs.
Proof.
  revert acc. induction xs as [|x xs IH]; intros acc; simpl.
  - by rewrite app_nil_r.
  - by rewrite IH, <- app_assoc.
Qed.

Lemma addContainer_loop (basePath : string) (added : list Container.t)
    (patch : list patchOperation) :
  fold_left (addContainer_step basePath) added (false, patch)
  = (false, patch ++ map (appendContainerOp basePath) added).
Proof.
  revert patch. induction added as [|c added IH]; intros patch; simpl.
  - by rewrite app_nil_r.
  - by rewrite IH, <- app_assoc.
Qed.

Lemma addContainer_closed (target added : list Container.t) (basePath : string) :
  addContainer target added basePath =
    match target, added with
    | [], c :: rest =>
        mkOp "add" basePath (VContainers [c])
        :: map (appendContainerOp basePath) rest
    | _, _ => map (appendContainerOp basePath) added
    end.
Proof.
  unfold addContainer.
  destruct target as [|t target]; simpl.
  - destruct added as [|c rest]; simpl; [done |].
    by rewrite addContainer_loop.
  - by rewrite addContainer_loop.
Qed.

Lemma addVolume_loop (basePath : string) (added : list Volume.t)
    (patch : list patchOperation) :
  fold_left (addVolume_step basePath) added (false, patch)
  = (false, patch ++ map (appendVolumeOp basePath) added).
Proof.
  revert patch. induction added as [|v added IH]; intros patch; simpl.
  - by rewrite app_nil_r.
  - by rewrite IH, <- app_assoc.
Qed.

Lemma addVolume_closed (target added : list Volume.t) (basePath : string) :
  addVolume target added basePath =
    match target, added with
    | [], v :: rest =>
        mkOp "add" basePath (VVolumes [v]) :: map (appendVolumeOp basePath) rest
    | _, _ => map (appendVolumeOp basePath) added
    end.
Proof.
  unfold addVolume.
  destruct target as [|t target]; simpl.
  - destruct added as [|v rest]; simpl; [done |].
    by rewrite addVolume_loop.
  - by rewrite addVolume_loop.
Qed.

Lemma addVolumeMounts_loop (vms : list VolumeMount.t) (indices : list nat)
    (patch : list patchOperation) :
  fold_left
    (λ patch i,
       fold_left
         (λ patch vm, patch ++ [mkOp "add" (volumeMountPath i) (VVolumeMount vm)])
         vms patch)
    indices patch
  = patch ++ flat_map (λ i, map (volumeMountOp i) vms) indices.
Proof.
  revert patch. induction indices as [|i indices IH]; intros patch; simpl.
  - by rewrite app_nil_r.
  - rewrite (fold_left_snoc (volumeMountOp i)), IH. by rewrite <- app_assoc.
Qed.

Lemma addVolumeMounts_closed (pod : Pod.t) (vms : list VolumeMount.t) :
  addVolumeMounts pod vms =
    flat_map (λ i, map (volumeMountOp i) vms)
      (seq 0 (length (PodSpec.Containers (Pod.Spec pod)))).
Proof. unfold addVolumeMounts. by rewrite addVolumeMounts_loop. Qed.

Lemma addEnvVars_loop (envVars : list EnvVar.t) (ics : list (nat * Container.t))
    (patch : list patchOperation) :
  fold_left (addEnvVars_step envVars) ics patch
  = patch ++ flat_map (λ ic, envGuardOps ic.1 ic.2 ++ map (envVarOp ic.1) envVars) ics.
Proof.
  revert patch. induction ics as [|[i c] ics IH]; intros patch; simpl.
  - by rewrite app_nil_r.
  - rewrite IH. unfold envGuardOps.
    destruct (Container.Env c); simpl;
      rewrite (fold_left_snoc (envVarOp i)); by rewrite <- ?app_assoc.
Qed.

Lemma addEnvVars_closed (pod : Pod.t) (envVars : list EnvVar.t) :
  addEnvVars pod envVars =
    match envVars with
    | [] => []
    | _ :: _ =>
        flat_map (λ ic, envGuardOps ic.1 ic.2 ++ map (envVarOp ic.1) envVars)
          (enumerate (PodSpec.Containers (Pod.Spec pod)))
    end.
Proof.
  unfold addEnvVars. destruct envVars as [|e envVars]; [done |].
  simpl length. rewrite bool_decide_eq_false_2 by done.
  by rewrite addEnvVars_loop.
Qed.

Lemma lacksValue_empty (key : string) : lacksValue (Some ∅) key = true.
Proof. unfold lacksValue. simpl. by rewrite lookup_empty. Qed.

Lemma updateAnnotation_step_eq (target : option (gmap string string))
    (patch : list patchOperation) (entry : string * string) :
  updateAnnotation_step (target, patch) entry =
    if lacksValue target entry.1
    then (Some ∅, patch ++ [addAnnotationOp entry])
    else (target, patch ++ [replaceAnnotationOp entry]).
Proof. by destruct entry. Qed.

(** Once [target] is the empty map, every entry takes the first branch. *)
Lemma updateAnnotation_loop_empty (added : list (string * string))
    (patch : list patchOperation) :
  fold_left updateAnnotation_step added (Some ∅, patch)
  = (Some ∅, patch ++ map addAnnotationOp added).
Proof.
  revert patch. induction added as [|entry added IH]; intros patch.
  - simpl. by rewrite app_nil_r.
  - cbn [fold_left]. rewrite updateAnnotation_step_eq, lacksValue_empty.
    rewrite IH. simpl. by rewrite <- app_assoc.
Qed.

Lemma updateAnnotation_loop (target : option (gmap string string))
    (entry : string * string) (rest : list (string * string))
    (patch : list patchOperation) :
  snd (fold_left updateAnnotation_step (entry :: rest) (target, patch)) =
    if lacksValue target entry.1
    then patch ++ map addAnnotationOp (entry :: rest)
    else snd (fold_left updateAnnotation_step rest
                (target, patch ++ [replaceAnnotationOp entry])).
Proof.
  cbn [fold_left]. rewrite updateAnnotation_step_eq.
  destruct (lacksValue target entry.1); [| done].
  rewrite updateAnnotation_loop_empty. simpl. by rewrite <- app_assoc.
Qed.

Lemma updateAnnotation_patch (target : option (gmap string string))
    (added : list (string * string)) (patch : list patchOperation) :
  snd (fold_left updateAnnotation_step added (target, patch))
  = patch ++ updateAnnotation target added.
Proof.
  unfold updateAnnotation. revert patch.
  induction added as [|entry rest IH]; intros patch.
  - simpl. by rewrite app_nil_r.
  - rewrite !updateAnnotation_loop.
    destruct (lacksValue target entry.1); [done |].
    rewrite IH, (IH ([] ++ _)). simpl. by rewrite <- app_assoc.
Qed.

Lemma updateAnnotation_cons (target : option (gmap string string))
    (entry : string * string) (rest : list (string * string)) :
  updateAnnotation target (entry :: rest) =
    if lacksValue target entry.1
    then map addAnnotationOp (entry :: rest)
    else replaceAnnotationOp entry :: updateAnnotation target rest.
Proof.
  unfold updateAnnotation at 1. rewrite updateAnnotation_loop.
  destruct (lacksValue target entry.1); [done |].
  by rewrite updateAnnotation_patch.
Qed.

End BuilderFacts.

(** ** The patch *)

Section PatchFacts.

Ltac push_app := cbv beta iota fix delta [String.append].

Lemma Forall_flat_map_intro {A B : Type} (P : B → Prop) (f : A → list B)
    (xs : list A) :
  (∀ x, Forall P (f x)) → Forall P (flat_map f xs).
Proof.
  intros Hf. induction xs as [|x xs IH]; simpl; [done |].
  apply Forall_app. by split.
Qed.

Lemma Forall_map_intro {A B : Type} (P : B → Prop) (f : A → B) (xs : list A) :
  (∀ x, P (f x)) → Forall P (map f xs).
Proof. intros Hf. induction xs as [|x xs IH]; simpl; by constructor. Qed.

Lemma filter_none {A : Type} (P : A → Prop) `{∀ x, Decision (P x)} (xs : list A) :
  Forall (λ x, ¬ P x) xs → filter P xs = [].
Proof.
  induction 1 as [|x xs Hx _ IH]; [done |].
  by rewrite filter_cons_False.
Qed.

Lemma filter_all {A : Type} (P : A → Prop) `{∀ x, Decision (P x)} (xs : list A) :
  Forall P xs → filter P xs = xs.
Proof.
  induction 1 as [|x xs Hx _ IH]; [done |].
  rewrite filter_cons_True by done. by rewrite IH.
Qed.

(** Where the operations of each step point. *)

Lemma addVolumeMounts_paths (pod : Pod.t) (vms : list VolumeMount.t) :
  Forall (λ op, ∃ i, Path op = volumeMountPath i) (addVolumeMounts pod vms).
Proof.
  rewrite addVolumeMounts_closed.
  apply Forall_flat_map_intro. intros i. apply Forall_map_intro. intros vm.
  by exists i.
Qed.

Lemma addEnvVars_paths (pod : Pod.t) (envVars : list EnvVar.t) :
  Forall (λ op, ∃ i, Path op = envPath i ∨ Path op = envAppendPath i)
    (addEnvVars pod envVars).
Proof.
  rewrite addEnvVars_closed. destruct envVars as [|e envVars]; [done |].
  apply Forall_flat_map_intro. intros [i c]. apply Forall_app. split.
  - unfold envGuardOps. simpl. destruct (Container.Env c); [done |].
    constructor; [| done]. exists i. by left.
  - apply Forall_map_intro. intros envVar. exists i. by right.
Qed.

Lemma addContainer_paths (target added : list Container.t) (basePath : string) :
  Forall (λ op, Path op = basePath ∨ Path op = basePath +:+ "/-")
    (addContainer target added basePath).
Proof.
  rewrite addContainer_closed.
  assert (∀ cs, Forall (λ op, Path op = basePath ∨ Path op = basePath +:+ "/-")
                  (map (appendContainerOp basePath) cs)) as Hmap.
  { intros cs. apply Forall_map_intro. intros c. by right. }
  destruct target, added; try apply Hmap.
  constructor; [by left | apply Hmap].
Qed.

Lemma addVolume_paths (target added : list Volume.t) (basePath : string) :
  Forall (λ op, Path op = basePath ∨ Path op = basePath +:+ "/-")
    (addVolume target added basePath).
Proof.
  rewrite addVolume_closed.
  assert (∀ vs, Forall (λ op, Path op = basePath ∨ Path op = basePath +:+ "/-")
                  (map (appendVolumeOp basePath) vs)) as Hmap.
  { intros vs. apply Forall_map_intro. intros v. by right. }
  destruct target, added; try apply Hmap.
  constructor; [by left | apply Hmap].
Qed.

Lemma updateAnnotation_paths (target : option (gmap string string))
    (added : list (string * string)) :
  Forall (λ op, ∃ suffix, Path op = "/metadata/annotations" +:+ suffix)
    (updateAnnotation target added).
Proof.
  induction added as [|entry rest IH]; [constructor |].
  rewrite updateAnnotation_cons. destruct (lacksValue target entry.1).
  - apply Forall_map_intro. intros e. by exists "".
  - constructor; [| done]. by exists ("/" +:+ entry.1).
Qed.



(** C1, as amended: among the operations of the patch that address the
    container list, a pod without containers gets one "add" at
    /spec/containers whose value is the one-element list of the first
    injected container, followed by one "add" at /spec/containers/- for
    each further injected container, in the declared order; a pod with
    containers gets one "add" at /spec/containers/- for each injected
    container, in the declared order. *)
Theorem container_list_operations
    (pod : Pod.t) (cfg : Config.t) (annotations : list (string * string)) :
  containerListOps (patchOps pod cfg annotations) =
    match PodSpec.Containers (Pod.Spec pod), Config.Containers cfg with
    | [], c :: rest =>
        mkOp "add" "/spec/containers" (VContainers [c])
        :: map (appendContainerOp "/spec/containers") rest
    | _, added => map (appendContainerOp "/spec/containers") added
    end.
Proof.
  unfold containerListOps, patchOps. simpl. rewrite !filter_app.
  rewrite (filter_none _ (addVolumeMounts _ _)); cycle 1.
  { eapply Forall_impl; [apply addVolumeMounts_paths |].
    intros op [i ->] Hin. by apply (indexed_path_not_list i "/volumeMounts/-") in Hin. }
  rewrite (filter_none _ (addEnvVars _ _)); cycle 1.
  { eapply Forall_impl; [apply addEnvVars_paths |].
    intros op [i [-> | ->]] Hin.
    - by apply (indexed_path_not_list i "/env") in Hin.
    - by apply (indexed_path_not_list i "/env/-") in Hin. }
  rewrite (filter_none _ (addContainer _ _ "/spec/initContainers")); cycle 1.
  { eapply Forall_impl; [apply addContainer_paths |].
    intros op [-> | ->]; rewrite !elem_of_cons, elem_of_nil;
      push_app; intros [? | [? | []]]; discriminate. }
  rewrite (filter_none _ (addVolume _ _ _)); cycle 1.
  { eapply Forall_impl; [apply addVolume_paths |].
    intros op [-> | ->]; rewrite !elem_of_cons, elem_of_nil;
      push_app; intros [? | [? | []]]; discriminate. }
  rewrite (filter_none _ (updateAnnotation _ _)); cycle 1.
  { eapply Forall_impl; [apply updateAnnotation_paths |].
    intros op [suffix ->]; rewrite !elem_of_cons, elem_of_nil;
      push_app; intros [? | [? | []]]; discriminate. }
  rewrite filter_all; cycle 1.
  { eapply Forall_impl; [apply addContainer_paths |].
    intros op [-> | ->]; rewrite !elem_of_cons; push_app; auto. }
  simpl. rewrite addContainer_closed, !app_nil_r.
  by destruct (PodSpec.Containers (Pod.Spec pod)), (Config.Containers cfg).
Qed.

(** C1, as stated, fails: for a pod without containers and two injected
    containers, the "add" at /spec/containers carries the first container
    only. *)
Lemma whole_list_rule_fails :
  ¬ wholeListRule barePod webConfig
      [(admissionWebhookAnnotationStatusKey, "injected")].
Proof.
  intros [Hfirst _].
  specialize (Hfirst eq_refl). lapply Hfirst; [| discriminate].
  vm_compute. discriminate.
Qed.

(** C8: a profile without environment variables adds nothing in the
    environment step, and no operation of the patch points at the [env]
    field of a container or at its end. *)
Theorem empty_envVars_no_env_operations
    (pod : Pod.t) (cfg : Config.t) (annotations : list (string * string)) :
  Config.EnvVars cfg = [] →
  addEnvVars pod (Config.EnvVars cfg) = []
  ∧ Forall (λ op, ∀ i, Path op ≠ envPath i ∧ Path op ≠ envAppendPath i)
      (patchOps pod cfg annotations).
Proof.
  intros Henv. rewrite Henv. split; [done |].
  unfold patchOps. rewrite Henv. simpl. rewrite app_nil_r.
  rewrite !Forall_app. split_and!.
  - eapply Forall_impl; [apply addVolumeMounts_paths |].
    intros op [j ->] i. apply volumeMountPath_not_env.
  - eapply Forall_impl; [apply addContainer_paths |].
    intros op [-> | ->] i; unfold envPath, envAppendPath; push_app;
      split; discriminate.
  - eapply Forall_impl; [apply addContainer_paths |].
    intros op Hop i. apply list_path_not_env.
    rewrite !elem_of_cons. destruct Hop as [-> | ->]; auto.
  - eapply Forall_impl; [apply addVolume_paths |].
    intros op [-> | ->] i; unfold envPath, envAppendPath; push_app;
      split; discriminate.
  - eapply Forall_impl; [apply updateAnnotation_paths |].
    intros op [suffix ->] i; unfold envPath, envAppendPath; push_app;
      split; discriminate.
Qed.

(** C9, as amended: the entries are taken in the order in which they are
    visited. While the pod's annotations hold a non-empty value for the
    visited key, the entry gives a "replace" at /metadata/annotations/{key}
    with the string value. From the first entry on for which the pod's
    annotations are nil or give the empty string for the key, that entry and
    every later one give an "add" at /metadata/annotations with the
    one-entry mapping. For a mapping of one entry this is the rule of the
    spec. *)
Theorem annotation_operations
    (target : option (gmap string string))
    (entry : string * string) (rest : list (string * string)) :
  updateAnnotation target [] = []
  ∧ updateAnnotation target (entry :: rest)
    = (if lacksValue target entry.1
       then map addAnnotationOp (entry :: rest)
       else replaceAnnotationOp entry :: updateAnnotation target rest)
  ∧ updateAnnotation target [entry] = [annotationRule target entry].
Proof.
  split_and!.
  - done.
  - apply updateAnnotation_cons.
  - rewrite updateAnnotation_cons. unfold annotationRule.
    by destruct (lacksValue target entry.1).
Qed.

(** C9, as stated, fails: the pod has a value for "a" and none for "b"; when
    "b" is visited first, the entry for "a" gives an "add" where the rule of
    the spec asks for a "replace". *)
Lemma annotation_rule_fails :
  visits {[ "a" := "1"; "b" := "2" ]} [("b", "2"); ("a", "1")]
  ∧ updateAnnotation (Some {[ "a" := "x" ]}) [("b", "2"); ("a", "1")]
    ≠ map (annotationRule (Some {[ "a" := "x" ]})) [("b", "2"); ("a", "1")].
Proof.
  split.
  - unfold visits.
    replace (map_to_list _) with [("a", "1"); ("b", "2")] by (by vm_compute).
    apply Permutation_swap.
  - intros Heq. apply (f_equal (map Op)) in Heq. vm_compute in Heq. discriminate.
Qed.

End PatchFacts.

(** ** The patch, applied *)

Section RoundTrip.

Ltac push_app := cbv beta iota fix delta [String.append].

Lemma referenceTokens_spec (below : string) :
  ∃ rest, referenceTokens ("/spec/" +:+ below) = Some ("spec" :: rest).
Proof.
  push_app. unfold referenceTokens. simpl.
  destruct (splitSlash below) as [|token tokens]; simpl; by eexists.
Qed.

Lemma applyOperation_spec (op : patchOperation) (meta : ObjectMeta.t) :
  (∃ below, Path op = "/spec/" +:+ below) → applyOperation op meta = Some meta.
Proof.
  intros [below Hpath]. unfold applyOperation. rewrite Hpath.
  destruct (referenceTokens_spec below) as [rest ->]. done.
Qed.

Lemma applyPatch_failed (ops : list patchOperation) :
  fold_left (λ acc op, acc ≫= applyOperation op) ops None = None.
Proof. induction ops as [|op ops IH]; [done | apply IH]. Qed.

Lemma applyPatch_app (ops1 ops2 : list patchOperation) (meta : ObjectMeta.t) :
  applyPatch (ops1 ++ ops2) meta = applyPatch ops1 meta ≫= applyPatch ops2.
Proof.
  unfold applyPatch. rewrite fold_left_app.
  destruct (fold_left _ ops1 _); simpl; [done | apply applyPatch_failed].
Qed.

Lemma applyPatch_spec (ops : list patchOperation) (meta : ObjectMeta.t) :
  Forall (λ op, ∃ below, Path op = "/spec/" +:+ below) ops →
  applyPatch ops meta = Some meta.
Proof.
  induction 1 as [|op ops Hop _ IH]; [done |].
  unfold applyPatch. simpl. rewrite applyOperation_spec by done. apply IH.
Qed.

(** The first five steps address the pod spec. *)
Lemma spec_steps_paths (pod : Pod.t) (cfg : Config.t) :
  Forall (λ op, ∃ below, Path op = "/spec/" +:+ below)
    (addVolumeMounts pod (Config.VolumeMounts cfg)
     ++ addEnvVars pod (Config.EnvVars cfg)
     ++ addContainer (PodSpec.InitContainers (Pod.Spec pod))
          (Config.InitContainers cfg) "/spec/initContainers"
     ++ addContainer (PodSpec.Containers (Pod.Spec pod))
          (Config.Containers cfg) "/spec/containers"
     ++ addVolume (PodSpec.Volumes (Pod.Spec pod)) (Config.Volumes cfg)
          "/spec/volumes").
Proof.
  rewrite !Forall_app. split_and!.
  - eapply Forall_impl; [apply addVolumeMounts_paths |].
    intros op [i ->]. by exists ("containers/" +:+ Sprintf_d i +:+ "/volumeMounts/-").
  - eapply Forall_impl; [apply addEnvVars_paths |].
    intros op [i [-> | ->]].
    + by exists ("containers/" +:+ Sprintf_d i +:+ "/env").
    + by exists ("containers/" +:+ Sprintf_d i +:+ "/env/-").
  - eapply Forall_impl; [apply addContainer_paths |].
    intros op [-> | ->]; [by exists "initContainers" | by exists "initContainers/-"].
  - eapply Forall_impl; [apply addContainer_paths |].
    intros op [-> | ->]; [by exists "containers" | by exists "containers/-"].
  - eapply Forall_impl; [apply addVolume_paths |].
    intros op [-> | ->]; [by exists "volumes" | by exists "volumes/-"].
Qed.

Lemma patchOps_split (pod : Pod.t) (cfg : Config.t)
    (annotations : list (string * string)) :
  ∃ front,
    Forall (λ op, ∃ below, Path op = "/spec/" +:+ below) front
    ∧ patchOps pod cfg annotations
      = front ++ updateAnnotation (Pod.Annotations pod) annotations.
Proof.
  eexists. split; [apply (spec_steps_paths pod cfg) |].
  unfold patchOps. simpl. by rewrite <- !app_assoc.
Qed.

(** When the pod has no value for the status key, the patch, provided that
    its operations below /spec apply, leaves the status annotation as the
    only annotation. *)
Lemma fresh_status_patch_applies (pod : Pod.t) (cfg : Config.t) :
  lacksValue (Pod.Annotations pod) admissionWebhookAnnotationStatusKey = true →
  applyPatch (patchOps pod cfg [statusEntry]) (Pod.ObjectMeta pod)
  = Some (setAnnotations (Pod.ObjectMeta pod)
            (Some {[ admissionWebhookAnnotationStatusKey := "injected" ]})).
Proof.
  intros Hlacks. destruct (patchOps_split pod cfg [statusEntry]) as (front & Hfront & ->).
  rewrite applyPatch_app, applyPatch_spec by done. simpl.
  rewrite updateAnnotation_cons. simpl. by rewrite Hlacks.
Qed.

(** When the pod has a value for the status key, the patch ends with a
    "replace" whose pointer runs below an annotation, and does not apply. *)
Lemma stale_status_patch_fails (pod : Pod.t) (cfg : Config.t) :
  lacksValue (Pod.Annotations pod) admissionWebhookAnnotationStatusKey = false →
  applyPatch (patchOps pod cfg [statusEntry]) (Pod.ObjectMeta pod) = None.
Proof.
  intros Hlacks. destruct (patchOps_split pod cfg [statusEntry]) as (front & Hfront & ->).
  rewrite applyPatch_app, applyPatch_spec by done. simpl.
  rewrite updateAnnotation_cons. simpl. by rewrite Hlacks.
Qed.

(** Metadata whose only annotation is the status marker needs no
    mutation. *)
Lemma marked_metadata_not_required `{Strings}
    (ignoredList : list string) (meta : ObjectMeta.t) :
  strings_ToLower "injected" = "injected" →
  mutationRequired ignoredList
    (setAnnotations meta (Some {[ admissionWebhookAnnotationStatusKey := "injected" ]}))
  = (false, "").
Proof.
  intros Hlower. rewrite mutationRequired_unfold. simpl.
  rewrite lookup_singleton_eq. simpl. rewrite Hlower. simpl.
  by destruct (inIgnoredList _ _).
Qed.

(** C4, on a pod that carries the inject annotation and a status annotation
    other than "injected": [mutate] answers with a patch whose last
    operation is a "replace" at
    /metadata/annotations/simple-sidecar.cemtml.ai/status.  The slash of the
    key is not escaped, so the pointer names the member "status" of the
    annotation "simple-sidecar.cemtml.ai"; the patch does not apply, and
    the pod as it stands gets the same answer again. *)
Theorem stale_status_patch_does_not_apply :
  ∃ ops,
    @mutate asciiStrings doc treeCodec webServer (DocPod pendingPod)
    = mkResponse true None (Some (DocPatch ops)) (Some PatchTypeJSONPatch)
    ∧ last ops
      = Some (mkOp "replace"
                "/metadata/annotations/simple-sidecar.cemtml.ai/status"
                (VString "injected"))
    ∧ referenceTokens "/metadata/annotations/simple-sidecar.cemtml.ai/status"
      = Some ["metadata"; "annotations"; "simple-sidecar.cemtml.ai"; "status"]
    ∧ applyPatch ops (Pod.ObjectMeta pendingPod) = None
    ∧ @mutationRequired asciiStrings ignoredNamespaces (Pod.ObjectMeta pendingPod)
      = (true, "web").
Proof.
  eexists. split_and!.
  - vm_compute. reflexivity.
  - by vm_compute.
  - by vm_compute.
  - apply (stale_status_patch_fails pendingPod webConfig). by vm_compute.
  - by vm_compute.
Qed.

End RoundTrip.

(** ** The properties at work on the sample objects *)

Lemma injected_status_not_mutated_witness :
  json_Unmarshal (Codec := treeCodec) (DocPod markedPod) = Ok markedPod
  ∧ asciiToLower
      (index (Pod.Annotations markedPod) admissionWebhookAnnotationStatusKey)
    = "injected"
  ∧ index_ok (Pod.Annotations markedPod) admissionWebhookAnnotationInjectKey
    = Some "web"
  ∧ @mutationRequired asciiStrings ignoredNamespaces (Pod.ObjectMeta markedPod)
    = (false, "")
  ∧ @mutate asciiStrings doc treeCodec webServer (DocPod markedPod)
    = allowUnchanged.
Proof.
  split; [reflexivity |]. split; [vm_compute; reflexivity |].
  split; [vm_compute; reflexivity |].
  apply (@injected_status_not_mutated asciiStrings doc treeCodec
           ignoredNamespaces webServer (DocPod markedPod) markedPod).
  - reflexivity.
  - vm_compute; reflexivity.
Defined.

Lemma ignored_namespace_not_mutated_witness :
  json_Unmarshal (Codec := treeCodec) (DocPod systemPod) = Ok systemPod
  ∧ Pod.Namespace systemPod ∈ ignoredNamespaces
  ∧ @mutationRequired asciiStrings ignoredNamespaces (Pod.ObjectMeta systemPod)
    = (false, "")
  ∧ @mutate asciiStrings doc treeCodec webServer (DocPod systemPod)
    = allowUnchanged.
Proof.
  split; [reflexivity |]. split; [apply list_elem_of_here |].
  destruct (@ignored_namespace_not_mutated asciiStrings doc treeCodec
              ignoredNamespaces webServer (DocPod systemPod) systemPod
              eq_refl (list_elem_of_here _ _))
    as [Hdecision Hmutate].
  split; [exact Hdecision | apply Hmutate, list_elem_of_here].
Defined.

Lemma inject_annotation_decides_witness :
  (ObjectMeta.Namespace emptyValueMeta ∉ ignoredNamespaces)
  ∧ asciiToLower
      (index (ObjectMeta.Annotations emptyValueMeta)
         admissionWebhookAnnotationStatusKey)
    ≠ "injected"
  ∧ @mutationRequired asciiStrings ignoredNamespaces emptyValueMeta = (true, "").
Proof.
  assert (ObjectMeta.Namespace emptyValueMeta ∉ ignoredNamespaces) as Hns.
  { apply inIgnoredList_not_elem. reflexivity. }
  assert (asciiToLower
            (index (ObjectMeta.Annotations emptyValueMeta)
               admissionWebhookAnnotationStatusKey) ≠ "injected") as Hstatus.
  { vm_compute. discriminate. }
  split; [exact Hns |]. split; [exact Hstatus |].
  apply (@inject_annotation_decides asciiStrings ignoredNamespaces
           emptyValueMeta Hns Hstatus).
  vm_compute; reflexivity.
Defined.

Lemma unknown_profile_allowed_witness :
  json_Unmarshal (Codec := treeCodec) (DocPod strayPod) = Ok strayPod
  ∧ @mutationRequired asciiStrings ignoredNamespaces (Pod.ObjectMeta strayPod)
    = (true, "missing")
  ∧ sidecarConfigs webServer !! "missing" = None
  ∧ @mutate asciiStrings doc treeCodec webServer (DocPod strayPod)
    = mkResponse true None None None.
Proof.
  split; [reflexivity |]. split; [vm_compute; reflexivity |].
  split; [vm_compute; reflexivity |].
  apply (@unknown_profile_allowed asciiStrings doc treeCodec
           webServer (DocPod strayPod) strayPod "missing").
  - reflexivity.
  - vm_compute; reflexivity.
  - vm_compute; reflexivity.
Defined.

Lemma empty_envVars_no_env_operations_witness :
  Config.EnvVars webConfig = []
  ∧ addEnvVars appPod (Config.EnvVars webConfig) = []
  ∧ Forall (λ op, ∀ i, Path op ≠ envPath i ∧ Path op ≠ envAppendPath i)
      (patchOps appPod webConfig [statusEntry]).
Proof.
  split; [reflexivity |].
  apply (empty_envVars_no_env_operations appPod webConfig [statusEntry]).
  reflexivity.
Defined.

Lemma decision_reads_namespace_and_annotations_witness :
  Pod.Namespace barePod = Pod.Namespace appPod
  ∧ Pod.Annotations barePod = Pod.Annotations appPod
  ∧ Pod.Spec barePod ≠ Pod.Spec appPod
  ∧ @mutationRequired asciiStrings ignoredNamespaces (Pod.ObjectMeta barePod)
    = @mutationRequired asciiStrings ignoredNamespaces (Pod.ObjectMeta appPod).
Proof.
  split; [reflexivity |]. split; [reflexivity |]. split; [discriminate |].
  apply (@decision_reads_namespace_and_annotations asciiStrings
           ignoredNamespaces barePod appPod); reflexivity.
Defined.

(** ** The scenarios of the specification *)

Example scenario_no_annotations :
  @mutate asciiStrings doc treeCodec (mkServer ∅) (DocPod plainPod)
  = allowUnchanged.
Proof. vm_compute. reflexivity. Qed.

Example scenario_bare_pod :
  patchOps barePod (Config.mk [] [sidecar] [] [] []) [statusEntry]
  = [mkOp "add" "/spec/containers" (VContainers [sidecar]);
     mkOp "add" "/metadata/annotations"
       (VStringMap {[ admissionWebhookAnnotationStatusKey := "injected" ]})].
Proof. vm_compute. reflexivity. Qed.

Example scenario_existing_container :
  containerListOps (patchOps appPod (Config.mk [] [sidecar] [] [] []) [statusEntry])
  = [mkOp "add" "/spec/containers/-" (VContainer sidecar)].
Proof. vm_compute. reflexivity. Qed.

Example scenario_mixed_case :
  @mutate asciiStrings doc treeCodec webServer (DocPod markedPod)
  = allowUnchanged.
Proof. vm_compute. reflexivity. Qed.

Example scenario_patched_pod :
  @mutate asciiStrings doc treeCodec webServer (DocPod appPod)
  = mkResponse true None
      (Some (DocPatch (patchOps appPod webConfig [statusEntry])))
      (Some PatchTypeJSONPatch)
  ∧ map Path (patchOps appPod webConfig [statusEntry])
    = ["/spec/containers/0/volumeMounts/-"; "/spec/containers/1/volumeMounts/-";
       "/spec/containers/-"; "/spec/containers/-"; "/spec/volumes";
       "/metadata/annotations"].
Proof. split; vm_compute; reflexivity. Qed.

(** * Further properties *)

(** ** The policy, in full *)

Section PolicyExtras.

Context `{Strings}.

(** A mutation is required exactly when the namespace is not ignored, the
    lowered status annotation is not "injected" and the inject annotation is
    present; the profile key is then the value of the inject annotation. *)
Theorem mutation_required_iff
    (ignoredList : list string) (meta : ObjectMeta.t) (key : string) :
  mutationRequired ignoredList meta = (true, key)
  ↔ (ObjectMeta.Namespace meta ∉ ignoredList)
    ∧ strings_ToLower
        (index (ObjectMeta.Annotations meta) admissionWebhookAnnotationStatusKey)
      ≠ "injected"
    ∧ index_ok (ObjectMeta.Annotations meta) admissionWebhookAnnotationInjectKey
      = Some key.
Proof.
  rewrite mutationRequired_unfold, <- inIgnoredList_not_elem.
  destruct (inIgnoredList _ _).
  - split; [discriminate | intros (? & _); discriminate].
  - destruct (String.eqb _ "injected") eqn:Hstatus.
    + apply String.eqb_eq in Hstatus.
      split; [discriminate | intros (_ & Hne & _); done].
    + apply String.eqb_neq in Hstatus. destruct (index_ok _ _) as [val |].
      * split; [intros [= ->]; done | intros (_ & _ & [= ->]); done].
      * split; [discriminate | intros (_ & _ & ?); discriminate].
Qed.

(** Ignoring more namespaces never makes a mutation required and never
    changes the profile key. *)
Theorem longer_ignored_list_requires_less
    (ignoredList ignoredList' : list string) (meta : ObjectMeta.t) (key : string) :
  ignoredList ⊆ ignoredList' →
  mutationRequired ignoredList' meta = (true, key) →
  mutationRequired ignoredList meta = (true, key).
Proof.
  intros Hsub. rewrite !mutationRequired_unfold.
  destruct (inIgnoredList ignoredList' _) eqn:Hns'; [discriminate |].
  destruct (inIgnoredList ignoredList _) eqn:Hns; [| done].
  apply inIgnoredList_elem, Hsub, inIgnoredList_elem in Hns. congruence.
Qed.

Context `{Codec Bytes}.

(** [mutate] carries a patch exactly when the pod decodes, the policy asks
    for a profile that the registry holds, and [createPatch] succeeds on the
    pod, that profile and the status entry; the patch is the result of
    [createPatch], and the response is then allowed, of type JSONPatch, and
    without message. *)
Theorem mutate_patch_iff (whs : WebhookServer) (raw : Bytes) (bytes : Bytes) :
  (Patch (mutate whs raw) = Some bytes
   ↔ ∃ pod key cfg,
       json_Unmarshal raw = Ok pod
       ∧ mutationRequired ignoredNamespaces (Pod.ObjectMeta pod) = (true, key)
       ∧ sidecarConfigs whs !! key = Some cfg
       ∧ createPatch pod cfg [statusEntry] = Ok bytes)
  ∧ (Patch (mutate whs raw) = Some bytes →
     mutate whs raw = mkResponse true None (Some bytes) (Some PatchTypeJSONPatch)).
Proof.
  unfold mutate. split; [split |].
  - destruct (json_Unmarshal raw) as [pod | msg]; [| done].
    destruct (mutationRequired _ _) as [[|] key] eqn:Hreq; simpl; [| done].
    destruct (sidecarConfigs whs !! key) as [cfg |] eqn:Hcfg; [| done].
    fold statusEntry.
    destruct (createPatch pod cfg [statusEntry]) as [patchBytes | msg] eqn:Hpatch;
      simpl; [| done].
    intros [= ->]. by exists pod, key, cfg.
  - intros (pod & key & cfg & -> & -> & Hcfg & Hpatch). simpl.
    rewrite Hcfg. fold statusEntry. by rewrite Hpatch.
  - destruct (json_Unmarshal raw) as [pod | msg]; [| done].
    destruct (mutationRequired _ _) as [[|] key]; simpl; [| done].
    destruct (sidecarConfigs whs !! key) as [cfg |]; [| done].
    destruct (createPatch _ _ _) as [patchBytes | msg]; simpl; [| done].
    by intros [= ->].
Qed.


(** When the pod decodes and the encoders succeed on every input, the pod
    is admitted. *)
Theorem mutate_admits_when_codecs_succeed
    (whs : WebhookServer) (raw : Bytes) (pod : Pod.t) :
  json_Unmarshal raw = Ok pod →
  (∀ cfg, ∃ cbytes, yaml_Marshal cfg = Ok cbytes) →
  (∀ ops, ∃ patchBytes, json_Marshal ops = Ok patchBytes) →
  Allowed (mutate whs raw) = true ∧ Result (mutate whs raw) = None.
Proof.
  intros Hraw Hyaml Hjson. unfold mutate. rewrite Hraw.
  destruct (mutationRequired _ _) as [[|] key]; simpl; [| done].
  destruct (sidecarConfigs whs !! key) as [cfg |]; [| done].
  fold statusEntry. unfold createPatch.
  destruct (Hyaml cfg) as [cbytes ->].
  by destruct (Hjson (patchOps pod cfg [statusEntry])) as [patchBytes ->].
Qed.

End PolicyExtras.

(** ** The builders, step by step *)

Section BuilderExtras.

Ltac push_app := cbv beta iota fix delta [String.append].

Lemma containers_of_appends (basePath : string) (cs : list Container.t) :
  flat_map (λ op, containersOf (Value op)) (map (appendContainerOp basePath) cs) = cs.
Proof. induction cs as [|c cs IH]; simpl; [done | by rewrite IH]. Qed.

Lemma volumes_of_appends (basePath : string) (vs : list Volume.t) :
  flat_map (λ op, volumesOf (Value op)) (map (appendVolumeOp basePath) vs) = vs.
Proof. induction vs as [|v vs IH]; simpl; [done | by rewrite IH]. Qed.

(** [addContainer] emits one "add" for each container to inject, whatever
    the target holds, and the containers read off the operations in order
    are the containers to inject: none is lost, repeated or reordered. *)
Theorem addContainer_carries_added
    (target added : list Container.t) (basePath : string) :
  length (addContainer target added basePath) = length added
  ∧ flat_map (λ op, containersOf (Value op)) (addContainer target added basePath)
    = added
  ∧ Forall (λ op, Op op = "add") (addContainer target added basePath).
Proof.
  rewrite addContainer_closed.
  assert (∀ cs, Forall (λ op, Op op = "add") (map (appendContainerOp basePath) cs))
    as Hadd by (intros cs; by apply Forall_map_intro).
  destruct target as [|t target], added as [|c rest]; simpl;
    rewrite ?length_map, ?containers_of_appends; split_and!; auto.
Qed.

(** [addVolume] emits one "add" for each volume to inject, and the volumes
    read off the operations in order are the volumes to inject. *)
Theorem addVolume_carries_added
    (target added : list Volume.t) (basePath : string) :
  length (addVolume target added basePath) = length added
  ∧ flat_map (λ op, volumesOf (Value op)) (addVolume target added basePath) = added
  ∧ Forall (λ op, Op op = "add") (addVolume target added basePath).
Proof.
  rewrite addVolume_closed.
  assert (∀ vs, Forall (λ op, Op op = "add") (map (appendVolumeOp basePath) vs))
    as Hadd by (intros vs; by apply Forall_map_intro).
  destruct target as [|t target], added as [|v rest]; simpl;
    rewrite ?length_map, ?volumes_of_appends; split_and!; auto.
Qed.

(** The paths of the three lists are apart from each other and from the
    paths of the other steps. *)
Lemma not_in_two (p a b : string) : p ≠ a → p ≠ b → p ∉ [a; b].
Proof.
  intros Ha Hb Hin. apply elem_of_cons in Hin as [? | Hin]; [done |].
  by apply list_elem_of_singleton in Hin.
Qed.

Lemma indexed_path_not_init (i : nat) (suffix : string) :
  "/spec/containers/" +:+ Sprintf_d i +:+ suffix
  ∉ ["/spec/initContainers"; "/spec/initContainers/-"].
Proof. apply not_in_two; push_app; discriminate. Qed.

Lemma indexed_path_not_volumes (i : nat) (suffix : string) :
  "/spec/containers/" +:+ Sprintf_d i +:+ suffix
  ∉ ["/spec/volumes"; "/spec/volumes/-"].
Proof. apply not_in_two; push_app; discriminate. Qed.

(** The init container step in the patch: a pod without init containers
    gets one "add" at /spec/initContainers with the one-element list of the
    first init container to inject and one "add" at /spec/initContainers/-
    for each further one; a pod with init containers gets one "add" at
    /spec/initContainers/- for each; the declared order is kept. *)
Theorem init_container_list_operations
    (pod : Pod.t) (cfg : Config.t) (annotations : list (string * string)) :
  initContainerListOps (patchOps pod cfg annotations) =
    match PodSpec.InitContainers (Pod.Spec pod), Config.InitContainers cfg with
    | [], c :: rest =>
        mkOp "add" "/spec/initContainers" (VContainers [c])
        :: map (appendContainerOp "/spec/initContainers") rest
    | _, added => map (appendContainerOp "/spec/initContainers") added
    end.
Proof.
  unfold initContainerListOps, patchOps. simpl. rewrite !filter_app.
  rewrite (filter_none _ (addVolumeMounts _ _)); cycle 1.
  { eapply Forall_impl; [apply addVolumeMounts_paths |].
    intros op [i ->]. apply indexed_path_not_init. }
  rewrite (filter_none _ (addEnvVars _ _)); cycle 1.
  { eapply Forall_impl; [apply addEnvVars_paths |].
    intros op [i [-> | ->]]; apply indexed_path_not_init. }
  rewrite (filter_none _ (addContainer _ _ "/spec/containers")); cycle 1.
  { eapply Forall_impl; [apply addContainer_paths |].
    intros op [-> | ->]; apply not_in_two; push_app; discriminate. }
  rewrite (filter_none _ (addVolume _ _ _)); cycle 1.
  { eapply Forall_impl; [apply addVolume_paths |].
    intros op [-> | ->]; apply not_in_two; push_app; discriminate. }
  rewrite (filter_none _ (updateAnnotation _ _)); cycle 1.
  { eapply Forall_impl; [apply updateAnnotation_paths |].
    intros op [suffix ->]; apply not_in_two; push_app; discriminate. }
  rewrite filter_all; cycle 1.
  { eapply Forall_impl; [apply addContainer_paths |].
    intros op [-> | ->]; rewrite !elem_of_cons; push_app; auto. }
  simpl. rewrite addContainer_closed, !app_nil_r.
  by destruct (PodSpec.InitContainers (Pod.Spec pod)), (Config.InitContainers cfg).
Qed.

(** The volume step in the patch: the same rule, at /spec/volumes. *)
Theorem volume_list_operations
    (pod : Pod.t) (cfg : Config.t) (annotations : list (string * string)) :
  volumeListOps (patchOps pod cfg annotations) =
    match PodSpec.Volumes (Pod.Spec pod), Config.Volumes cfg with
    | [], v :: rest =>
        mkOp "add" "/spec/volumes" (VVolumes [v])
        :: map (appendVolumeOp "/spec/volumes") rest
    | _, added => map (appendVolumeOp "/spec/volumes") added
    end.
Proof.
  unfold volumeListOps, patchOps. simpl. rewrite !filter_app.
  rewrite (filter_none _ (addVolumeMounts _ _)); cycle 1.
  { eapply Forall_impl; [apply addVolumeMounts_paths |].
    intros op [i ->]. apply indexed_path_not_volumes. }
  rewrite (filter_none _ (addEnvVars _ _)); cycle 1.
  { eapply Forall_impl; [apply addEnvVars_paths |].
    intros op [i [-> | ->]]; apply indexed_path_not_volumes. }
  rewrite (filter_none _ (addContainer _ _ "/spec/initContainers")); cycle 1.
  { eapply Forall_impl; [apply addContainer_paths |].
    intros op [-> | ->]; apply not_in_two; push_app; discriminate. }
  rewrite (filter_none _ (addContainer _ _ "/spec/containers")); cycle 1.
  { eapply Forall_impl; [apply addContainer_paths |].
    intros op [-> | ->]; apply not_in_two; push_app; discriminate. }
  rewrite (filter_none _ (updateAnnotation _ _)); cycle 1.
  { eapply Forall_impl; [apply updateAnnotation_paths |].
    intros op [suffix ->]; apply not_in_two; push_app; discriminate. }
  rewrite filter_all; cycle 1.
  { eapply Forall_impl; [apply addVolume_paths |].
    intros op [-> | ->]; rewrite !elem_of_cons; push_app; auto. }
  simpl. rewrite addVolume_closed, ?app_nil_r.
  by destruct (PodSpec.Volumes (Pod.Spec pod)), (Config.Volumes cfg).
Qed.

(** [updateAnnotation] emits one operation for each entry: a run of
    "replace" operations for the entries visited while the target holds a
    value for the key, then "add" operations for all the entries from the
    first one whose key has no value. *)
Theorem updateAnnotation_replaces_then_adds
    (target : option (gmap string string)) (added : list (string * string)) :
  ∃ n,
    updateAnnotation target added
    = map replaceAnnotationOp (take n added) ++ map addAnnotationOp (drop n added)
    ∧ Forall (λ entry, lacksValue target entry.1 = false) (take n added)
    ∧ (∀ entry, head (drop n added) = Some entry →
                lacksValue target entry.1 = true)
    ∧ length (updateAnnotation target added) = length added.
Proof.
  induction added as [|entry rest (n & IH & Hhave & Hlack & Hlen)].
  - exists 0. split_and!; [done | constructor | | done]. intros entry [=].
  - rewrite updateAnnotation_cons.
    destruct (lacksValue target entry.1) eqn:Hentry.
    + exists 0. split_and!; [done | constructor | | ].
      * intros e [= <-]. done.
      * by rewrite length_map.
    + exists (S n). simpl. rewrite IH. split_and!; [done | | done | ].
      * by constructor.
      * rewrite <- IH. by rewrite Hlen.
Qed.

(** A pod without annotations gets an "add" of a one-entry mapping for
    every entry, in the order in which the entries are visited. *)
Theorem updateAnnotation_nil_target (added : list (string * string)) :
  updateAnnotation None added = map addAnnotationOp added.
Proof. destruct added as [|entry rest]; [done | by rewrite updateAnnotation_cons]. Qed.

(** The paths below a container index tell the indices apart. *)
Lemma volumeMountPath_inj (i j : nat) :
  volumeMountPath i = volumeMountPath j → i = j.
Proof.
  unfold volumeMountPath. intros Heq.
  cbv beta iota fix delta [String.append] in Heq. injection Heq as Heq.
  apply digits_slash_inj in Heq as [Heq _]; auto using Sprintf_d_allDigits.
  by apply (inj pretty) in Heq.
Qed.

Lemma env_paths_same_index (i j : nat) (p : string) :
  p ∈ [envPath j; envAppendPath j] → p ∈ [envPath i; envAppendPath i] → i = j.
Proof.
  rewrite !elem_of_cons, !elem_of_nil. unfold envPath, envAppendPath.
  intros [-> | [-> | []]] [Heq | [Heq | []]];
    cbv beta iota fix delta [String.append] in Heq; injection Heq as Heq;
    apply digits_slash_inj in Heq as [Heq Hrest];
    auto using Sprintf_d_allDigits; try discriminate;
    symmetry; by apply (inj pretty) in Heq.
Qed.

Lemma filter_mounts_seq (i : nat) (vms : list VolumeMount.t) (start n : nat) :
  filter (λ op, Path op = volumeMountPath i)
    (flat_map (λ j, map (volumeMountOp j) vms) (seq start n))
  = if decide (start ≤ i < start + n) then map (volumeMountOp i) vms else [].
Proof.
  revert start. induction n as [|n IH]; intros start; simpl.
  - case_decide; [lia | done].
  - rewrite filter_app, IH. destruct (decide (i = start)) as [-> | Hne].
    + rewrite filter_all by (by apply Forall_map_intro).
      rewrite decide_False by lia. rewrite decide_True by lia.
      by rewrite app_nil_r.
    + rewrite filter_none; cycle 1.
      { apply Forall_map_intro. intros vm Heq. simpl in Heq.
        by apply volumeMountPath_inj in Heq. }
      simpl. repeat case_decide; try done; lia.
Qed.

(** The volume mount operations for the container at [i]: every container
    of the pod gets one "add" at its own volumeMounts/- path for each mount
    of the profile, in the declared order; no operation points at an index
    that the pod does not have. *)
Theorem volume_mount_operations_at
    (pod : Pod.t) (cfg : Config.t) (annotations : list (string * string)) (i : nat) :
  volumeMountOpsAt i (patchOps pod cfg annotations) =
    if decide (i < length (PodSpec.Containers (Pod.Spec pod)))
    then map (volumeMountOp i) (Config.VolumeMounts cfg)
    else [].
Proof.
  unfold volumeMountOpsAt, patchOps. simpl. rewrite !filter_app.
  rewrite (filter_none _ (addEnvVars _ _)); cycle 1.
  { eapply Forall_impl; [apply addEnvVars_paths |].
    intros op [j [-> | ->]] Heq; symmetry in Heq;
      by apply volumeMountPath_not_env in Heq. }
  rewrite (filter_none _ (addContainer _ _ "/spec/initContainers")); cycle 1.
  { eapply Forall_impl; [apply addContainer_paths |].
    intros op [-> | ->]; unfold volumeMountPath; push_app; discriminate. }
  rewrite (filter_none _ (addContainer _ _ "/spec/containers")); cycle 1.
  { eapply Forall_impl; [apply addContainer_paths |].
    intros op Hop Heq. symmetry in Heq. revert Heq.
    apply indexed_path_not_list. rewrite !elem_of_cons.
    destruct Hop as [-> | ->]; auto. }
  rewrite (filter_none _ (addVolume _ _ _)); cycle 1.
  { eapply Forall_impl; [apply addVolume_paths |].
    intros op [-> | ->]; unfold volumeMountPath; push_app; discriminate. }
  rewrite (filter_none _ (updateAnnotation _ _)); cycle 1.
  { eapply Forall_impl; [apply updateAnnotation_paths |].
    intros op [suffix ->]; unfold volumeMountPath; push_app; discriminate. }
  rewrite addVolumeMounts_closed, filter_mounts_seq, !app_nil_r.
  repeat case_decide; try done; lia.
Qed.

Lemma filter_env_enumerate (i : nat) (envVars : list EnvVar.t)
    (cs : list Container.t) (start : nat) :
  filter (λ op, Path op ∈ [envPath i; envAppendPath i])
    (flat_map (λ ic, envGuardOps ic.1 ic.2 ++ map (envVarOp ic.1) envVars)
       (zip (seq start (length cs)) cs))
  = match (if decide (start ≤ i)%nat then cs !! (i - start)%nat else None) with
    | Some c => envGuardOps i c ++ map (envVarOp i) envVars
    | None => []
    end.
Proof.
  revert start. induction cs as [|c cs IH]; intros start; simpl.
  - by case_decide.
  - rewrite filter_app, IH.
    assert (Forall (λ op, Path op ∈ [envPath start; envAppendPath start])
              (envGuardOps start c ++ map (envVarOp start) envVars)) as Hhere.
    { apply Forall_app. split.
      - unfold envGuardOps. destruct (Container.Env c); [done |].
        constructor; [| done]. simpl. by left.
      - apply Forall_map_intro. intros e. simpl. right. by left. }
    destruct (decide (i = start)) as [-> | Hne].
    + rewrite filter_all by done.
      rewrite decide_False by lia. rewrite decide_True by lia.
      rewrite Nat.sub_diag. simpl. by rewrite app_nil_r.
    + rewrite filter_none; cycle 1.
      { eapply Forall_impl; [exact Hhere |]. intros op Hstart Hi.
        by apply (env_paths_same_index i start) in Hi. }
      simpl. destruct (decide (S start ≤ i)%nat) as [Hle | Hgt].
      * rewrite decide_True by lia.
        replace (i - start) with (S (i - S start)) by lia. done.
      * by rewrite decide_False by lia.
Qed.

(** The environment operations for the container at [i]: when the profile
    has environment variables, the container gets first an "add" of an
    empty list at its env path if and only if its [env] field is nil, then
    one "add" at its env/- path for each variable, in the declared order;
    without variables, and at an index that the pod does not have, there is
    no operation. *)
Theorem env_operations_at
    (pod : Pod.t) (cfg : Config.t) (annotations : list (string * string)) (i : nat) :
  envOpsAt i (patchOps pod cfg annotations) =
    match PodSpec.Containers (Pod.Spec pod) !! i, Config.EnvVars cfg with
    | Some c, _ :: _ => envGuardOps i c ++ map (envVarOp i) (Config.EnvVars cfg)
    | _, _ => []
    end.
Proof.
  unfold envOpsAt, patchOps. simpl. rewrite !filter_app.
  rewrite (filter_none _ (addVolumeMounts _ _)); cycle 1.
  { eapply Forall_impl; [apply addVolumeMounts_paths |].
    intros op [j ->]. apply not_in_two; apply volumeMountPath_not_env. }
  rewrite (filter_none _ (addContainer _ _ "/spec/initContainers")); cycle 1.
  { eapply Forall_impl; [apply addContainer_paths |].
    intros op [-> | ->]; apply not_in_two; unfold envPath, envAppendPath;
      push_app; discriminate. }
  rewrite (filter_none _ (addContainer _ _ "/spec/containers")); cycle 1.
  { eapply Forall_impl; [apply addContainer_paths |].
    intros op Hop. apply not_in_two; apply list_path_not_env;
      rewrite !elem_of_cons; destruct Hop as [-> | ->]; auto. }
  rewrite (filter_none _ (addVolume _ _ _)); cycle 1.
  { eapply Forall_impl; [apply addVolume_paths |].
    intros op [-> | ->]; apply not_in_two; unfold envPath, envAppendPath;
      push_app; discriminate. }
  rewrite (filter_none _ (updateAnnotation _ _)); cycle 1.
  { eapply Forall_impl; [apply updateAnnotation_paths |].
    intros op [suffix ->]; apply not_in_two; unfold envPath, envAppendPath;
      push_app; discriminate. }
  rewrite !app_nil_r. simpl. rewrite addEnvVars_closed.
  destruct (Config.EnvVars cfg) as [|e envVars] eqn:Henv.
  - by destruct (_ !! i).
  - unfold enumerate. rewrite filter_env_enumerate.
    rewrite decide_True by lia. by rewrite Nat.sub_0_r.
Qed.

End BuilderExtras.

(** ** The patch as a whole *)

Section PatchExtras.

Lemma addVolumeMounts_adds (pod : Pod.t) (vms : list VolumeMount.t) :
  Forall (λ op, Op op = "add") (addVolumeMounts pod vms).
Proof.
  rewrite addVolumeMounts_closed. apply Forall_flat_map_intro. intros i.
  by apply Forall_map_intro.
Qed.

Lemma addEnvVars_adds (pod : Pod.t) (envVars : list EnvVar.t) :
  Forall (λ op, Op op = "add") (addEnvVars pod envVars).
Proof.
  rewrite addEnvVars_closed. destruct envVars as [|e envVars]; [done |].
  apply Forall_flat_map_intro. intros [i c]. apply Forall_app. split.
  - unfold envGuardOps. simpl. destruct (Container.Env c); by repeat constructor.
  - by apply Forall_map_intro.
Qed.

Lemma addContainer_adds (target added : list Container.t) (basePath : string) :
  Forall (λ op, Op op = "add") (addContainer target added basePath).
Proof.
  rewrite addContainer_closed.
  assert (∀ cs, Forall (λ op, Op op = "add") (map (appendContainerOp basePath) cs))
    as Hadd by (intros cs; by apply Forall_map_intro).
  destruct target, added; try apply Hadd. by constructor.
Qed.

Lemma addVolume_adds (target added : list Volume.t) (basePath : string) :
  Forall (λ op, Op op = "add") (addVolume target added basePath).
Proof.
  rewrite addVolume_closed.
  assert (∀ vs, Forall (λ op, Op op = "add") (map (appendVolumeOp basePath) vs))
    as Hadd by (intros vs; by apply Forall_map_intro).
  destruct target, added; try apply Hadd. by constructor.
Qed.

(** Every operation of a patch is an "add", except for the "replace" of an
    annotation for which the pod holds a non-empty value; the patch never
    removes, moves, copies or tests anything. *)
Theorem patch_operation_kinds
    (pod : Pod.t) (cfg : Config.t) (annotations : list (string * string)) :
  Forall
    (λ op, Op op = "add"
           ∨ ∃ entry, entry ∈ annotations
                      ∧ op = replaceAnnotationOp entry
                      ∧ lacksValue (Pod.Annotations pod) entry.1 = false)
    (patchOps pod cfg annotations).
Proof.
  unfold patchOps. simpl. rewrite !Forall_app. split_and!.
  - eapply Forall_impl; [apply addVolumeMounts_adds | auto].
  - eapply Forall_impl; [apply addEnvVars_adds | auto].
  - eapply Forall_impl; [apply addContainer_adds | auto].
  - eapply Forall_impl; [apply addContainer_adds | auto].
  - eapply Forall_impl; [apply addVolume_adds | auto].
  - induction annotations as [|entry rest IH]; [constructor |].
    rewrite updateAnnotation_cons.
    destruct (lacksValue (Pod.Annotations pod) entry.1) eqn:Hentry.
    + apply Forall_map_intro. intros e. by left.
    + constructor.
      * right. exists entry. split_and!; [by left | done | done].
      * eapply Forall_impl; [exact IH |].
        intros op [Hadd | (e & He & Hop & Hval)]; [by left |].
        right. exists e. split_and!; [by right | done | done].
Qed.

Lemma length_mounts (vms : list VolumeMount.t) (indices : list nat) :
  length (flat_map (λ i, map (volumeMountOp i) vms) indices)
  = length indices * length vms.
Proof.
  induction indices as [|i indices IH]; simpl; [done |].
  by rewrite length_app, length_map, IH.
Qed.

Lemma countNilEnv_cons (c : Container.t) (cs : list Container.t) :
  countNilEnv (c :: cs)
  = match Container.Env c with Some _ => 0 | None => 1 end + countNilEnv cs.
Proof.
  unfold countNilEnv. destruct (Container.Env c) eqn:Henv.
  - rewrite filter_cons_False by congruence. done.
  - by rewrite filter_cons_True.
Qed.

Lemma length_env (envVars : list EnvVar.t) (cs : list Container.t) (start : nat) :
  length (flat_map (λ ic, envGuardOps ic.1 ic.2 ++ map (envVarOp ic.1) envVars)
            (zip (seq start (length cs)) cs))
  = countNilEnv cs + length cs * length envVars.
Proof.
  revert start. induction cs as [|c cs IH]; intros start; simpl; [done |].
  rewrite !length_app, length_map, IH, countNilEnv_cons.
  unfold envGuardOps. destruct (Container.Env c); simpl; lia.
Qed.

(** The size of a patch: one operation for each pair of an existing
    container and a volume mount; when the profile has environment
    variables, one for each existing container without [env] field and one
    for each pair of an existing container and a variable; and one for each
    init container, container, volume and annotation entry to add. *)
Theorem patch_length
    (pod : Pod.t) (cfg : Config.t) (annotations : list (string * string)) :
  let n := length (PodSpec.Containers (Pod.Spec pod)) in
  length (patchOps pod cfg annotations)
  = n * length (Config.VolumeMounts cfg)
    + match Config.EnvVars cfg with
      | [] => 0
      | _ :: _ => countNilEnv (PodSpec.Containers (Pod.Spec pod))
                  + n * length (Config.EnvVars cfg)
      end
    + length (Config.InitContainers cfg)
    + length (Config.Containers cfg)
    + length (Config.Volumes cfg)
    + length annotations.
Proof.
  intros n. unfold patchOps. simpl. rewrite !length_app.
  rewrite addVolumeMounts_closed, length_mounts, length_seq.
  rewrite addEnvVars_closed.
  assert (∀ target added basePath,
            length (addContainer target added basePath) = length added) as Hcont.
  { intros target added basePath. rewrite addContainer_closed.
    destruct target, added; simpl; by rewrite ?length_map. }
  assert (∀ target added basePath,
            length (addVolume target added basePath) = length added) as Hvol.
  { intros target added basePath. rewrite addVolume_closed.
    destruct target, added; simpl; by rewrite ?length_map. }
  assert (∀ target, length (updateAnnotation target annotations)
                    = length annotations) as Hann.
  { intros target. induction annotations as [|entry rest IH]; [done |].
    rewrite updateAnnotation_cons. destruct (lacksValue target entry.1); simpl.
    - by rewrite length_map.
    - by rewrite IH. }
  rewrite !Hcont, Hvol, Hann.
  destruct (Config.EnvVars cfg) as [|e envVars]; [simpl; lia |].
  unfold enumerate. rewrite length_env. fold n. lia.
Qed.

Lemma env_ops_same_shape (envVars : list EnvVar.t) (cs1 cs2 : list Container.t)
    (start : nat) :
  map (λ c, bool_decide (Container.Env c = None)) cs1
  = map (λ c, bool_decide (Container.Env c = None)) cs2 →
  flat_map (λ ic, envGuardOps ic.1 ic.2 ++ map (envVarOp ic.1) envVars)
    (zip (seq start (length cs1)) cs1)
  = flat_map (λ ic, envGuardOps ic.1 ic.2 ++ map (envVarOp ic.1) envVars)
      (zip (seq start (length cs2)) cs2).
Proof.
  revert cs2 start. induction cs1 as [|c1 cs1 IH]; intros [|c2 cs2] start;
    simpl; try done.
  intros [= Hhead Htail]. rewrite (IH cs2 (S start) Htail). f_equal. f_equal.
  unfold envGuardOps.
  destruct (Container.Env c1), (Container.Env c2); try done;
    (rewrite bool_decide_eq_true_2 in Hhead by done
     || rewrite bool_decide_eq_false_2 in Hhead by done);
    (rewrite bool_decide_eq_true_2 in Hhead by done
     || rewrite bool_decide_eq_false_2 in Hhead by done); done.
Qed.

(** The patch takes nothing from the pod but its shape: two pods whose
    containers agree, one by one, on whether the [env] field is nil, which
    agree on whether there are init containers and volumes, and which have
    the same annotations, get the same patch, whatever their names,
    namespaces, images, variables and mounts. *)
Theorem patch_reads_shape_only
    (pod1 pod2 : Pod.t) (cfg : Config.t) (annotations : list (string * string)) :
  sameShape pod1 pod2 →
  patchOps pod1 cfg annotations = patchOps pod2 cfg annotations.
Proof.
  intros (Hcs & Hinit & Hvol & Hann). unfold patchOps. simpl.
  assert (length (PodSpec.Containers (Pod.Spec pod1))
          = length (PodSpec.Containers (Pod.Spec pod2))) as Hlen.
  { apply (f_equal length) in Hcs. by rewrite !length_map in Hcs. }
  f_equal; [f_equal; [f_equal; [f_equal; [f_equal |] |] |] |].
  - by rewrite !addVolumeMounts_closed, Hlen.
  - rewrite !addEnvVars_closed. destruct (Config.EnvVars cfg); [done |].
    unfold enumerate. by apply env_ops_same_shape.
  - rewrite !addContainer_closed.
    destruct (PodSpec.InitContainers (Pod.Spec pod1)),
             (PodSpec.InitContainers (Pod.Spec pod2)); try done.
    + discriminate (proj1 Hinit eq_refl).
    + discriminate (proj2 Hinit eq_refl).
  - rewrite !addContainer_closed.
    destruct (PodSpec.Containers (Pod.Spec pod1)),
             (PodSpec.Containers (Pod.Spec pod2)); done.
  - rewrite !addVolume_closed.
    destruct (PodSpec.Volumes (Pod.Spec pod1)),
             (PodSpec.Volumes (Pod.Spec pod2)); try done.
    + discriminate (proj1 Hvol eq_refl).
    + discriminate (proj2 Hvol eq_refl).
  - by rewrite Hann.
Qed.

(** The patch that [mutate] builds is never empty: it ends with exactly one
    operation on the annotations, the status marker, and every operation
    before it is an "add" below /spec. *)
Theorem status_marker_is_last (pod : Pod.t) (cfg : Config.t) :
  ∃ front,
    patchOps pod cfg [statusEntry]
    = front ++ [if lacksValue (Pod.Annotations pod) admissionWebhookAnnotationStatusKey
                then addAnnotationOp statusEntry
                else replaceAnnotationOp statusEntry]
    ∧ Forall (λ op, ∃ below, Path op = "/spec/" +:+ below) front
    ∧ Forall (λ op, Op op = "add") front.
Proof.
  exists (addVolumeMounts pod (Config.VolumeMounts cfg)
          ++ addEnvVars pod (Config.EnvVars cfg)
          ++ addContainer (PodSpec.InitContainers (Pod.Spec pod))
               (Config.InitContainers cfg) "/spec/initContainers"
          ++ addContainer (PodSpec.Containers (Pod.Spec pod))
               (Config.Containers cfg) "/spec/containers"
          ++ addVolume (PodSpec.Volumes (Pod.Spec pod)) (Config.Volumes cfg)
               "/spec/volumes").
  split_and!.
  - unfold patchOps. simpl. rewrite <- !app_assoc.
    rewrite updateAnnotation_cons. simpl.
    by destruct (lacksValue (Pod.Annotations pod) _).
  - apply (spec_steps_paths pod cfg).
  - rewrite !Forall_app. split_and!;
      auto using addVolumeMounts_adds, addEnvVars_adds, addContainer_adds,
        addVolume_adds.
Qed.

End PatchExtras.

(** ** The handler *)

Section ServeFacts.

Context `{Strings} `{Codec Bytes} `{Transport Bytes}.

Implicit Types (whs : WebhookServer) (w_Write : option Bytes → option string)
  (r : HttpRequest Bytes).

(** The run of [Serve] once the body and the content type are accepted. *)
Lemma Serve_accepted whs w_Write r (data : Bytes) :
  Body r = Some (Ok data) → len data ≠ 0 →
  ContentType r = "application/json" →
  Serve whs w_Write r =
    let '(ar, err) := deserializer_Decode data in
    match (match err with
           | Some msg => Some (mkResponse false (Some msg) None None)
           | None => match Request ar with
                     | Some req => Some (mutate whs (Object_Raw req))
                     | None => None
                     end
           end) with
    | None => Panicked
    | Some response =>
        let '(resp, reported) :=
          match json_Marshal_review (answerFor ar response) with
          | Err msg => (None, [HttpError ("could not encode response: " +:+ msg)
                                 StatusInternalServerError])
          | Ok resp => (Some resp, [])
          end in
        match w_Write resp with
        | Some msg =>
            Returned (reported ++
                      [Write resp;
                       HttpError ("could not write response: " +:+ msg)
                         StatusInternalServerError])
        | None => Returned (reported ++ [Write resp])
        end
    end.
Proof.
  intros Hbody Hlen Htype. unfold Serve. rewrite Hbody, Htype.
  apply Nat.eqb_neq in Hlen. rewrite Hlen. simpl.
  by destruct (deserializer_Decode data) as [ar err].
Qed.

(** A request without body, with a body that cannot be read, or with a body
    of length zero is answered with "empty body" and status 400, whatever its
    content type; nothing is decoded and nothing else is written. *)
Theorem serve_rejects_empty_body whs w_Write r :
  (∀ data, Body r = Some (Ok data) → len data = 0) →
  Serve whs w_Write r = Returned [HttpError "empty body" StatusBadRequest].
Proof.
  intros Hempty. unfold Serve.
  destruct (Body r) as [[data | msg] |]; [| done | done].
  by rewrite (Hempty data eq_refl).
Qed.

(** A request with a non-empty body whose content type is not exactly
    application/json is answered with status 415 and nothing else. *)
Theorem serve_rejects_other_content_types whs w_Write r (data : Bytes) :
  Body r = Some (Ok data) → len data ≠ 0 →
  ContentType r ≠ "application/json" →
  Serve whs w_Write r
  = Returned [HttpError "invalid Content-Type, expect `application/json`"
                StatusUnsupportedMediaType].
Proof.
  intros Hbody Hlen Htype. unfold Serve. rewrite Hbody.
  apply Nat.eqb_neq in Hlen. apply String.eqb_neq in Htype.
  by rewrite Hlen, Htype.
Qed.

(** [Serve] panics exactly when an accepted body decodes without error into
    a review that has no request. *)
Theorem serve_panics_iff whs w_Write r :
  Serve whs w_Write r = Panicked
  ↔ ∃ data ar,
      Body r = Some (Ok data) ∧ len data ≠ 0
      ∧ ContentType r = "application/json"
      ∧ deserializer_Decode data = (ar, None)
      ∧ Request ar = None.
Proof.
  split.
  - unfold Serve.
    destruct (Body r) as [[data | msg] |]; [| done | done].
    destruct (Nat.eqb (len data) 0) eqn:Hlen; [done |].
    destruct (String.eqb (ContentType r) "application/json") eqn:Htype; [| done].
    simpl. destruct (deserializer_Decode data) as [ar [msg |]] eqn:Hdecode.
    + destruct (json_Marshal_review _); by destruct (w_Write _).
    + destruct (Request ar) as [req |] eqn:Hreq.
      * destruct (json_Marshal_review _); by destruct (w_Write _).
      * intros _. exists data, ar. apply Nat.eqb_neq in Hlen.
        apply String.eqb_eq in Htype. done.
  - intros (data & ar & Hbody & Hlen & Htype & Hdecode & Hreq).
    rewrite (Serve_accepted _ _ _ data) by done. by rewrite Hdecode, Hreq.
Qed.

(** Whatever [Serve] writes is the encoding of a review of version
    admission.k8s.io/v1 and kind AdmissionReview whose response carries the
    UID of the decoded request and is either the answer of [mutate] on the
    object of that request or, when the body did not decode, a response
    that is not allowed and carries the decoding error. *)
Theorem serve_writes_the_answer whs w_Write r
    (calls : list (writerCall Bytes)) (resp : Bytes) :
  Serve whs w_Write r = Returned calls →
  In (Write (Some resp)) calls →
  ∃ data ar err response,
    Body r = Some (Ok data)
    ∧ deserializer_Decode data = (ar, err)
    ∧ json_Marshal_review (answerFor ar response) = Ok resp
    ∧ match err with
      | Some msg => response = mkResponse false (Some msg) None None
      | None => ∃ req, Request ar = Some req
                       ∧ response = mutate whs (Object_Raw req)
      end.
Proof.
  unfold Serve.
  assert (∀ message code,
            Returned [HttpError message code] = Returned calls →
            In (Write (Some resp)) calls → False) as Hrejected.
  { intros message code [= <-]. simpl. intros [? | []]. discriminate. }
  destruct (Body r) as [[data | msg] |];
    [| intros Hrun Hin; destruct (Hrejected _ _ Hrun Hin)
     | intros Hrun Hin; destruct (Hrejected _ _ Hrun Hin)].
  destruct (Nat.eqb (len data) 0);
    [intros Hrun Hin; destruct (Hrejected _ _ Hrun Hin) |].
  destruct (String.eqb (ContentType r) "application/json");
    [| intros Hrun Hin; destruct (Hrejected _ _ Hrun Hin)].
  simpl. destruct (deserializer_Decode data) as [ar err] eqn:Hdecode.
  assert (∀ review,
    (let '(resp0, reported) :=
       match json_Marshal_review review with
       | Err msg => (None, [HttpError ("could not encode response: " +:+ msg)
                              StatusInternalServerError])
       | Ok resp0 => (Some resp0, [])
       end in
     match w_Write resp0 with
     | Some msg =>
         Returned (reported ++
                   [Write resp0;
                    HttpError ("could not write response: " +:+ msg)
                      StatusInternalServerError])
     | None => Returned (reported ++ [Write resp0])
     end) = Returned calls →
    In (Write (Some resp)) calls →
    json_Marshal_review review = Ok resp) as Hwritten.
  { intros review.
    destruct (json_Marshal_review review) as [resp0 | msg].
    - destruct (w_Write (Some resp0)); intros [= <-]; simpl;
        intros [[= ->] | Hin]; try done; by destruct Hin.
    - destruct (w_Write None); intros [= <-]; simpl;
        intros [[=] | [[=] | Hin]]; try done; by destruct Hin. }
  destruct err as [msg |].
  - intros Hrun Hin.
    exists data, ar, (Some msg), (mkResponse false (Some msg) None None).
    split_and!; [done | done | | done].
    eapply Hwritten; [exact Hrun | exact Hin].
  - destruct (Request ar) as [req |] eqn:Hreq; [| done].
    intros Hrun Hin. exists data, ar, None, (mutate whs (Object_Raw req)).
    split_and!; [done | done | | by exists req].
    unfold answerFor. rewrite Hreq.
    eapply Hwritten; [exact Hrun | exact Hin].
Qed.

Ltac counts :=
  unfold bodyCount, sliceCount, statusCount, received; simpl; lia.

(** What the writer receives from a run of [Serve] that returns.  It is
    given a body at least once and at most three times.  The slice of
    [Serve]'s own [w.Write] reaches it at most once, and not at all exactly
    on the two rejections, 400 and 415, where it is given the status and
    the error text only.  No status is set, so that the answer goes out
    with the default status, exactly when the review was encoded and
    written with success: the writer then receives that one slice and
    nothing else. *)
Theorem serve_writer_receives whs w_Write r (calls : list (writerCall Bytes)) :
  Serve whs w_Write r = Returned calls →
  (1 ≤ bodyCount (received calls) ≤ 3)%nat
  ∧ (sliceCount (received calls) ≤ 1)%nat
  ∧ (sliceCount (received calls) = 0
     ↔ calls = [HttpError "empty body" StatusBadRequest]
       ∨ calls = [HttpError "invalid Content-Type, expect `application/json`"
                    StatusUnsupportedMediaType])
  ∧ (sliceCount (received calls) = 0 →
     ∃ message code,
       received calls = [WriteHeader code; WriteText (message +:+ lineFeed)])
  ∧ (statusCount (received calls) = 0
     ↔ ∃ resp, calls = [Write (Some resp)] ∧ w_Write (Some resp) = None
               ∧ received calls = [WriteSlice (Some resp)]).
Proof.
  unfold Serve.
  assert (∀ message code,
            (message = "empty body" ∧ code = StatusBadRequest)
            ∨ (message = "invalid Content-Type, expect `application/json`"
               ∧ code = StatusUnsupportedMediaType) →
            Returned [HttpError message code] = Returned calls →
            (1 ≤ bodyCount (received calls) ≤ 3)%nat
            ∧ (sliceCount (received calls) ≤ 1)%nat
            ∧ (sliceCount (received calls) = 0
               ↔ calls = [HttpError "empty body" StatusBadRequest]
                 ∨ calls = [HttpError "invalid Content-Type, expect `application/json`"
                              StatusUnsupportedMediaType])
            ∧ (sliceCount (received calls) = 0 →
               ∃ message code,
                 received calls = [WriteHeader code; WriteText (message +:+ lineFeed)])
            ∧ (statusCount (received calls) = 0
               ↔ ∃ resp, calls = [Write (Some resp)] ∧ w_Write (Some resp) = None
                         ∧ received calls = [WriteSlice (Some resp)]))
    as Hrejected.
  { intros message code Hwhich [= <-].
    split; [counts |]. split; [counts |]. split; [| split].
    - split; [intros _ | done]. destruct Hwhich as [[-> ->] | [-> ->]]; auto.
    - intros _. by exists message, code.
    - split; [discriminate |]. intros (resp & [=] & _). }
  assert (∀ reported data failure,
            (reported = [] ∨ ∃ message, reported = [HttpError message StatusInternalServerError]) →
            (reported = [] → ∃ resp, data = Some resp) →
            (match failure with
             | Some msg =>
                 Returned (reported ++
                           [Write data;
                            HttpError ("could not write response: " +:+ msg)
                              StatusInternalServerError])
             | None => Returned (reported ++ [Write data])
             end) = Returned calls →
            w_Write data = failure →
            (1 ≤ bodyCount (received calls) ≤ 3)%nat
            ∧ (sliceCount (received calls) ≤ 1)%nat
            ∧ (sliceCount (received calls) = 0
               ↔ calls = [HttpError "empty body" StatusBadRequest]
                 ∨ calls = [HttpError "invalid Content-Type, expect `application/json`"
                              StatusUnsupportedMediaType])
            ∧ (sliceCount (received calls) = 0 →
               ∃ message code,
                 received calls = [WriteHeader code; WriteText (message +:+ lineFeed)])
            ∧ (statusCount (received calls) = 0
               ↔ ∃ resp, calls = [Write (Some resp)] ∧ w_Write (Some resp) = None
                         ∧ received calls = [WriteSlice (Some resp)]))
    as Hanswered.
  { intros reported data failure Hreported Hdata Hrun Hwrite.
    destruct Hreported as [-> | [message ->]], failure as [msg |];
      injection Hrun as <-; simpl.
    - split; [counts |]. split; [counts |]. split; [| split].
      + split; [discriminate | intros [[=] | [=]]].
      + discriminate.
      + split; [discriminate | intros (resp & [=] & _)].
    - destruct (Hdata eq_refl) as [resp ->].
      split; [counts |]. split; [counts |]. split; [| split].
      + split; [discriminate | intros [[=] | [=]]].
      + discriminate.
      + split; [intros _; by exists resp | done].
    - split; [counts |]. split; [counts |]. split; [| split].
      + split; [discriminate | intros [[=] | [=]]].
      + discriminate.
      + split; [discriminate | intros (resp & [=] & _)].
    - split; [counts |]. split; [counts |]. split; [| split].
      + split; [discriminate | intros [[=] | [=]]].
      + discriminate.
      + split; [discriminate | intros (resp & [=] & _)]. }
  assert (∀ review,
            (let '(resp, reported) :=
               match json_Marshal_review review with
               | Err msg => (None, [HttpError ("could not encode response: " +:+ msg)
                                      StatusInternalServerError])
               | Ok resp => (Some resp, [])
               end in
             match w_Write resp with
             | Some msg =>
                 Returned (reported ++
                           [Write resp;
                            HttpError ("could not write response: " +:+ msg)
                              StatusInternalServerError])
             | None => Returned (reported ++ [Write resp])
             end) = Returned calls →
            (1 ≤ bodyCount (received calls) ≤ 3)%nat
            ∧ (sliceCount (received calls) ≤ 1)%nat
            ∧ (sliceCount (received calls) = 0
               ↔ calls = [HttpError "empty body" StatusBadRequest]
                 ∨ calls = [HttpError "invalid Content-Type, expect `application/json`"
                              StatusUnsupportedMediaType])
            ∧ (sliceCount (received calls) = 0 →
               ∃ message code,
                 received calls = [WriteHeader code; WriteText (message +:+ lineFeed)])
            ∧ (statusCount (received calls) = 0
               ↔ ∃ resp, calls = [Write (Some resp)] ∧ w_Write (Some resp) = None
                         ∧ received calls = [WriteSlice (Some resp)]))
    as Hencoded.
  { intros review. destruct (json_Marshal_review review) as [resp | msg].
    - intros Hrun. apply (Hanswered [] (Some resp) (w_Write (Some resp)));
        [by left | intros _; by exists resp | exact Hrun | done].
    - intros Hrun.
      apply (Hanswered [HttpError ("could not encode response: " +:+ msg)
                          StatusInternalServerError] None (w_Write None));
        [right; by eexists | discriminate | exact Hrun | done]. }
  destruct (Body r) as [[data | msg] |];
    [| apply Hrejected; auto | apply Hrejected; auto].
  destruct (Nat.eqb (len data) 0); [apply Hrejected; auto |].
  destruct (String.eqb (ContentType r) "application/json");
    [| apply Hrejected; auto].
  simpl. destruct (deserializer_Decode data) as [ar [msg |]].
  - apply Hencoded.
  - destruct (Request ar) as [req |]; [apply Hencoded | done].
Qed.

End ServeFacts.

(** ** The further properties at work on the sample objects *)

Lemma longer_ignored_list_requires_less_witness :
  [NamespaceSystem] ⊆ ignoredNamespaces
  ∧ @mutationRequired asciiStrings ignoredNamespaces (Pod.ObjectMeta appPod)
    = (true, "web")
  ∧ @mutationRequired asciiStrings [NamespaceSystem] (Pod.ObjectMeta appPod)
    = (true, "web").
Proof.
  assert ([NamespaceSystem] ⊆ ignoredNamespaces) as Hsub.
  { intros ns Hns. apply list_elem_of_singleton in Hns as ->. apply list_elem_of_here. }
  split; [exact Hsub |]. split; [vm_compute; reflexivity |].
  apply (@longer_ignored_list_requires_less asciiStrings
           [NamespaceSystem] ignoredNamespaces (Pod.ObjectMeta appPod) "web" Hsub).
  vm_compute; reflexivity.
Defined.


Lemma mutate_admits_when_codecs_succeed_witness :
  json_Unmarshal (Codec := treeCodec) (DocPod appPod) = Ok appPod
  ∧ (∀ cfg, ∃ cbytes, yaml_Marshal (Codec := treeCodec) cfg = Ok cbytes)
  ∧ (∀ ops, ∃ patchBytes, json_Marshal (Codec := treeCodec) ops = Ok patchBytes)
  ∧ Allowed (@mutate asciiStrings doc treeCodec webServer (DocPod appPod)) = true
  ∧ Result (@mutate asciiStrings doc treeCodec webServer (DocPod appPod)) = None.
Proof.
  assert (∀ cfg, ∃ cbytes, yaml_Marshal (Codec := treeCodec) cfg = Ok cbytes)
    as Hyaml by (intros cfg; eexists; reflexivity).
  assert (∀ ops, ∃ patchBytes, json_Marshal (Codec := treeCodec) ops = Ok patchBytes)
    as Hjson by (intros ops; eexists; reflexivity).
  split; [reflexivity |]. split; [exact Hyaml |]. split; [exact Hjson |].
  exact (@mutate_admits_when_codecs_succeed asciiStrings doc treeCodec
           webServer (DocPod appPod) appPod eq_refl Hyaml Hjson).
Defined.

Lemma patch_reads_shape_only_witness :
  sameShape appPod twinPod
  ∧ Pod.Spec appPod ≠ Pod.Spec twinPod
  ∧ patchOps appPod webConfig [statusEntry] = patchOps twinPod webConfig [statusEntry].
Proof.
  assert (sameShape appPod twinPod) as Hshape.
  { unfold sameShape. split_and!; reflexivity. }
  split; [exact Hshape |]. split; [discriminate |].
  exact (patch_reads_shape_only appPod twinPod webConfig [statusEntry] Hshape).
Defined.

Lemma serve_rejects_empty_body_witness :
  (∀ data, Body noBodyRequest = Some (Ok data)
           → len (Transport := wireTransport) data = 0)
  ∧ @Serve asciiStrings wire wireCodec wireTransport webServer goodWriter noBodyRequest
    = Returned [HttpError "empty body" StatusBadRequest].
Proof.
  assert (∀ data, Body noBodyRequest = Some (Ok data)
                  → len (Transport := wireTransport) data = 0) as Hempty.
  { intros data Hbody. discriminate Hbody. }
  split; [exact Hempty |].
  exact (@serve_rejects_empty_body asciiStrings wire wireCodec wireTransport
           webServer goodWriter noBodyRequest Hempty).
Defined.

Lemma serve_rejects_other_content_types_witness :
  Body textRequest = Some (Ok (reviewOf appPod))
  ∧ len (Transport := wireTransport) (reviewOf appPod) ≠ 0
  ∧ ContentType textRequest ≠ "application/json"
  ∧ @Serve asciiStrings wire wireCodec wireTransport webServer goodWriter textRequest
    = Returned [HttpError "invalid Content-Type, expect `application/json`"
                  StatusUnsupportedMediaType].
Proof.
  assert (len (Transport := wireTransport) (reviewOf appPod) ≠ 0) as Hlen
    by (simpl; discriminate).
  assert (ContentType textRequest ≠ "application/json") as Htype
    by (simpl; discriminate).
  split; [reflexivity |]. split; [exact Hlen |]. split; [exact Htype |].
  exact (@serve_rejects_other_content_types asciiStrings wire wireCodec
           wireTransport webServer goodWriter textRequest (reviewOf appPod)
           eq_refl Hlen Htype).
Defined.

Lemma serve_writes_the_answer_witness :
  let answer :=
    WireAnswer "705ab4f5-6393-11e8-b7cc-42010a800002"
      (@mutate asciiStrings wire wireCodec webServer (WirePod appPod)) in
  @Serve asciiStrings wire wireCodec wireTransport webServer goodWriter goodRequest
  = Returned [Write (Some answer)]
  ∧ In (Write (Some answer)) [Write (Some answer)]
  ∧ ∃ data ar err response,
      Body goodRequest = Some (Ok data)
      ∧ deserializer_Decode (Transport := wireTransport) data = (ar, err)
      ∧ json_Marshal_review (Transport := wireTransport) (answerFor ar response)
        = Ok answer
      ∧ match err with
        | Some msg => response = mkResponse false (Some msg) None None
        | None => ∃ req, Request ar = Some req
                         ∧ response
                           = @mutate asciiStrings wire wireCodec webServer
                               (Object_Raw req)
        end.
Proof.
  intros answer.
  assert (@Serve asciiStrings wire wireCodec wireTransport webServer goodWriter
            goodRequest = Returned [Write (Some answer)]) as Hrun
    by (vm_compute; reflexivity).
  assert (In (Write (Some answer)) [Write (Some answer)]) as Hin
    by (left; reflexivity).
  split; [exact Hrun |]. split; [exact Hin |].
  exact (@serve_writes_the_answer asciiStrings wire wireCodec wireTransport
           webServer goodWriter goodRequest _ answer Hrun Hin).
Defined.

Lemma serve_writer_receives_witness :
  let answer :=
    WireAnswer "705ab4f5-6393-11e8-b7cc-42010a800002"
      (@mutate asciiStrings wire wireCodec webServer (WirePod appPod)) in
  @Serve asciiStrings wire wireCodec wireTransport webServer goodWriter goodRequest
  = Returned [Write (Some answer)]
  ∧ received [Write (Some answer)] = [WriteSlice (Some answer)]
  ∧ (1 ≤ bodyCount (received [Write (Some answer)]) ≤ 3)%nat
  ∧ (sliceCount (received [Write (Some answer)]) ≤ 1)%nat.
Proof.
  intros answer.
  assert (@Serve asciiStrings wire wireCodec wireTransport webServer goodWriter
            goodRequest = Returned [Write (Some answer)]) as Hrun
    by (vm_compute; reflexivity).
  split; [exact Hrun |]. split; [reflexivity |].
  destruct (@serve_writer_receives asciiStrings wire wireCodec wireTransport
              webServer goodWriter goodRequest _ Hrun)
    as (Hbody & Hslice & _).
  split; [exact Hbody | exact Hslice].
Defined.

(** ** The handler on the sample requests *)

Example serve_sample_panic :
  @Serve asciiStrings wire wireCodec wireTransport webServer goodWriter
    emptyReviewRequest
  = Panicked.
Proof. vm_compute. reflexivity. Qed.

Example serve_sample_patch_sizes :
  length (patchOps appPod webConfig [statusEntry]) = 6
  ∧ volumeMountOpsAt 1 (patchOps appPod webConfig [statusEntry])
    = [volumeMountOp 1 (VolumeMount.mk "scratch" "/scratch")]
  ∧ envOpsAt 0 (patchOps appPod (Config.mk [] [] [] [EnvVar.mk "A" "1"] [])
                  [statusEntry])
    = [mkOp "add" "/spec/containers/0/env" (VEnvVars []);
       mkOp "add" "/spec/containers/0/env/-" (VEnvVar (EnvVar.mk "A" "1"))].
Proof. split_and!; vm_compute; reflexivity. Qed.
